(** * Apoptotic gene list workflow: ortholog resolution, evidence
      consolidation, annotation and per-source breakdown

    A shallow embedding of the data-processing core of the workflow scripts
    [02_homology_mapping.py], [03_gene_consolidation.py],
    [04_id_annotation.py] and [05_source_breakdown.py].

    Modelling conventions.
    - A Python [str] is a [string]; comparison of two [str] is the
      code-point order, which on byte strings is [String.leb].
    - A Python [set] of strings that the code only tests, extends, measures
      with [len] or passes to [sorted] is a [gset string].  A [set] that the
      code iterates over is given by the list of its elements in iteration
      order; since that order is not fixed between two interpreter runs the
      order-independence results quantify over permutations of these lists.
    - A [dict] that the code iterates over is an association list in
      insertion order; a [dict] used only for lookups is a [gmap].
    - A [DataFrame] is the list of its rows, a row a record of its columns.
      The steps hand their tables over as CSV files; a table read back is
      the table written, except that an empty cell is a missing value.
    - A call of the external gene-information service is a function of the
      request; [None] stands for a raised exception.  An uncaught Python
      exception of a step is the result [None] of its model.
    - [sorted] and [DataFrame.sort_values] on several columns are stable
      sorts; they are modelled by a stable insertion sort. *)

From Stdlib Require Import ZArith Ascii String.
From stdpp Require Import gmap strings list sorting.

Open Scope string_scope.
Open Scope list_scope.

(** ** Stable sorting, string helpers *)

Section stable_sort.
Context {A : Type} (leb : A → A → bool).

(** [x] stood before every element of [l] in the input, so it goes in
    front of the first element it is not greater than. *)
Fixpoint sort_insert (x : A) (l : list A) : list A :=
  match l with
  | [] => [x]
  | y :: l' => if leb x y then x :: y :: l' else y :: sort_insert x l'
  end.

Definition sort_by (l : list A) : list A := foldr sort_insert [] l.

(** The relation decided by a comparison function. *)
Definition holds : relation A := λ x y, leb x y = true.
End stable_sort.

(** [sep.join(l)] *)
Fixpoint join (sep : string) (l : list string) : string :=
  match l with
  | [] => ""
  | [s] => s
  | s :: l' => s +:+ sep +:+ join sep l'
  end.

(** [sorted(X)] for a set of strings. *)
Definition sorted_set (X : gset string) : list string :=
  sort_by String.leb (elements X).

(** The slices [l[i:i+n]] for [i in range(0, len(l), n)]. *)
Fixpoint batches_from {A} (fuel n : nat) (l : list A) : list (list A) :=
  match fuel, l with
  | S fuel', _ :: _ => take n l :: batches_from fuel' n (drop n l)
  | _, _ => []
  end.
Definition batches {A} (n : nat) (l : list A) : list (list A) :=
  batches_from (length l) n l.

(** [s.upper()] on ASCII text: the letters [a]..[z] are mapped to
    [A]..[Z], every other byte is kept. *)
Definition upper_ascii (c : ascii) : ascii :=
  let n := nat_of_ascii c in
  if (97 <=? n)%nat && (n <=? 122)%nat then ascii_of_nat (n - 32) else c.
Fixpoint upper (s : string) : string :=
  match s with
  | EmptyString => EmptyString
  | String c s' => String (upper_ascii c) (upper s')
  end.

(** [pat in s]: some suffix of [s] starts with [pat]. *)
Fixpoint str_contains (pat s : string) : bool :=
  String.prefix pat s ||
  match s with
  | EmptyString => false
  | String _ s' => str_contains pat s'
  end.

(** [s.strip() != ''] on ASCII text. *)
Definition is_whitespace (c : ascii) : bool :=
  let n := nat_of_ascii c in
  ((9 <=? n)%nat && (n <=? 13)%nat) || ((28 <=? n)%nat && (n <=? 32)%nat).
Fixpoint not_blank (s : string) : bool :=
  match s with
  | EmptyString => false
  | String c s' => negb (is_whitespace c) || not_blank s'
  end.

(** [d.get(k)] on a dict kept in insertion order. *)
Fixpoint dict_get {V} (k : string) (d : list (string * V)) : option V :=
  match d with
  | [] => None
  | (k', v) :: d' => if decide (k = k') then Some v else dict_get k d'
  end.

(** ** Step 3: gene consolidation ([03_gene_consolidation.py]) *)

Module Consolidation.

(** The value type of the [gene_evidence] tracker. *)
Record evidence := Evidence {
  pro_evidence : gset string;
  anti_evidence : gset string;
  general_evidence : gset string;
  mouse_symbols : gset string
}.

(** The [defaultdict] factory. *)
Definition new_evidence : evidence := Evidence ∅ ∅ ∅ ∅.

(** [ev['pro_evidence'].add(s)] and its three siblings. *)
Definition add_pro (s : string) (ev : evidence) : evidence :=
  Evidence ({[s]} ∪ pro_evidence ev) (anti_evidence ev)
           (general_evidence ev) (mouse_symbols ev).
Definition add_anti (s : string) (ev : evidence) : evidence :=
  Evidence (pro_evidence ev) ({[s]} ∪ anti_evidence ev)
           (general_evidence ev) (mouse_symbols ev).
Definition add_general (s : string) (ev : evidence) : evidence :=
  Evidence (pro_evidence ev) (anti_evidence ev)
           ({[s]} ∪ general_evidence ev) (mouse_symbols ev).
Definition add_mouse (s : string) (ev : evidence) : evidence :=
  Evidence (pro_evidence ev) (anti_evidence ev)
           (general_evidence ev) ({[s]} ∪ mouse_symbols ev).

(** [gene_evidence]: a [defaultdict], iterated at the end, hence kept in
    insertion order. *)
Definition tracker := list (string * evidence).

(** [f(gene_evidence[k])] for an in-place mutation [f]: the entry is
    created from the factory on first access and keeps its position
    afterwards. *)
Fixpoint touch (k : string) (f : evidence → evidence) (ge : tracker)
    : tracker :=
  match ge with
  | [] => [(k, f new_evidence)]
  | (k', ev) :: ge' =>
      if decide (k = k') then (k', f ev) :: ge'
      else (k', ev) :: touch k f ge'
  end.

(** The two lookup tables returned by [load_orthology_mapping]. *)
Record orthology := Orthology {
  h2m : gmap string (list string);
  m2h : gmap string string
}.

(** One iteration of [for _, row in df.iterrows()]. *)
Definition index_pair (o : orthology) (row : string * string) : orthology :=
  let '(human, mouse) := row in
  let h2m1 :=
    match h2m o !! human with
    | None => <[human := []]> (h2m o)
    | Some _ => h2m o
    end in
  let h2m2 := alter (λ l, l ++ [mouse]) human h2m1 in
  Orthology h2m2 (<[mouse := human]> (m2h o)).

(** [load_orthology_mapping], on the rows
    [(human_symbol, mouse_symbol)] of the pair table. *)
Definition load_orthology_mapping (df : list (string * string)) : orthology :=
  fold_left index_pair df (Orthology ∅ ∅).

(** [if gene in h2m: for mouse in h2m[gene]: ...add(mouse)] *)
Definition add_orthologs (o : orthology) (gene : string) (ge : tracker)
    : tracker :=
  match h2m o !! gene with
  | Some mice =>
      fold_left (λ ge mouse, touch gene (add_mouse mouse) ge) mice ge
  | None => ge
  end.

(** Body of the loops over the human sources; [tag] is the [add] on the
    evidence set of the source's polarity. *)
Definition file_human (o : orthology) (tag : evidence → evidence)
    (ge : tracker) (gene : string) : tracker :=
  add_orthologs o gene (touch gene tag ge).

(** Body of the loops over the two mouse sources. *)
Definition file_mouse (o : orthology) (tag : evidence → evidence)
    (ge : tracker) (mouse_gene : string) : tracker :=
  match m2h o !! mouse_gene with
  | Some human_gene =>
      touch human_gene (add_mouse mouse_gene) (touch human_gene tag ge)
  | None => ge
  end.

(** The filing part of [consolidate_genes] (up to "Now categorize each
    gene"); [sources name] is [sources[name]] in iteration order. *)
Definition aggregate (o : orthology) (sources : string → list string)
    : tracker :=
  let ge := [] in
  let ge := fold_left (file_human o (add_pro "GO_Pro_Human"))
              (sources "GO_Pro_Human") ge in
  let ge := fold_left (file_human o (add_anti "GO_Anti_Human"))
              (sources "GO_Anti_Human") ge in
  let ge := fold_left (file_mouse o (add_pro "GO_Pro_Mouse"))
              (sources "GO_Pro_Mouse") ge in
  let ge := fold_left (file_mouse o (add_anti "GO_Anti_Mouse"))
              (sources "GO_Anti_Mouse") ge in
  fold_left
    (λ ge source_name,
       fold_left (file_human o (add_general source_name))
         (sources source_name) ge)
    ["KEGG"; "Reactome"; "Hallmark"] ge.

(** A row of the consolidated table. *)
Record gene_row := GeneRow {
  human_symbol : string;
  mouse_symbol : string;
  category : string;
  sources : string;
  evidence_score : nat
}.

(** The [if]/[elif] chain that determines the category. *)
Definition categorize (ev : evidence) : string :=
  let has_pro := bool_decide (0 < size (pro_evidence ev)) in
  let has_anti := bool_decide (0 < size (anti_evidence ev)) in
  let has_general := bool_decide (0 < size (general_evidence ev)) in
  if has_pro && has_anti then "Ambiguous"
  else if has_pro then "Pro-apoptotic"
  else if has_anti then "Anti-apoptotic"
  else if has_general then "Unspecified"
  else "Unknown".

(** [all_sources] after the three [update] calls. *)
Definition all_sources (ev : evidence) : gset string :=
  ((∅ ∪ pro_evidence ev) ∪ anti_evidence ev) ∪ general_evidence ev.

(** Body of the categorisation loop: the dict appended to
    [consolidated_data]. *)
Definition consolidate_row (item : string * evidence) : gene_row :=
  let '(human_symbol, ev) := item in
  {| human_symbol := human_symbol;
     mouse_symbol := join "," (sorted_set (mouse_symbols ev));
     category := categorize ev;
     sources := join "," (sorted_set (all_sources ev));
     evidence_score := size (all_sources ev) |}.

(** Sort key of
    [sort_values(['evidence_score', 'human_symbol'], ascending=[False, True])]. *)
Definition row_leb (r1 r2 : gene_row) : bool :=
  bool_decide (evidence_score r2 < evidence_score r1)
  || (bool_decide (evidence_score r1 = evidence_score r2)
      && String.leb (human_symbol r1) (human_symbol r2)).

Definition sort_values (df : list gene_row) : list gene_row :=
  sort_by row_leb df.

(** [consolidated_data] at the end of the categorisation loop. *)
Definition consolidated_data (o : orthology) (sources : string → list string)
    : list gene_row :=
  consolidate_row <$> aggregate o sources.

(** [consolidate_genes].  A frame built from an empty list has no columns,
    and sorting it by column names raises [KeyError]: [None]. *)
Definition consolidate_genes (o : orthology) (sources : string → list string)
    : option (list gene_row) :=
  match consolidated_data o sources with
  | [] => None
  | _ :: _ => Some (sort_values (consolidated_data o sources))
  end.

End Consolidation.

(** ** Step 2: homology mapping ([02_homology_mapping.py]) *)

Module Homology.

Inductive species := human | mouse.

Definition taxid (sp : species) : Z :=
  match sp with human => 9606 | mouse => 10090 end.

(** One element of [results["out"]] of [querymany]: the fields the code
    reads.  [hit_genes] is [homologene["genes"]], a list of
    [[taxid, entrez_id]] pairs, empty when the hit has no homologene
    cluster. *)
Record query_hit := QueryHit {
  hit_query : string;
  hit_notfound : bool;
  hit_symbol : option string;
  hit_genes : list (Z * Z)
}.

(** One element of the result of [getgenes]: [gene_id] is
    [int(hit.get("query", hit.get("_id")))] when that exists, and
    [gene_symbol] is [hit["symbol"]] when the key is present. *)
Record gene_hit := GeneHit {
  gene_id : option Z;
  gene_symbol : option string
}.

(** A row of the mapping table. *)
Record mapping_record := MappingRecord {
  human_symbol : string;
  mouse_symbol : string;
  human_entrez : option Z;
  mouse_entrez : option Z;
  mapping_source : string
}.

(** [d[k] = v] on a dict kept in insertion order. *)
Fixpoint dict_set {V} (k : string) (v : V) (d : list (string * V))
    : list (string * V) :=
  match d with
  | [] => [(k, v)]
  | (k', v') :: d' =>
      if decide (k = k') then (k', v) :: d' else (k', v') :: dict_set k v d'
  end.

Definition pair_key (r : mapping_record) : string * string :=
  (human_symbol r, mouse_symbol r).

(** [drop_duplicates(subset=["human_symbol", "mouse_symbol"], keep="first")];
    [seen] holds the keys of the rows already passed. *)
Fixpoint drop_duplicates_from (seen : gset (string * string))
    (df : list mapping_record) : list mapping_record :=
  match df with
  | [] => []
  | r :: df' =>
      if decide (pair_key r ∈ seen) then drop_duplicates_from seen df'
      else r :: drop_duplicates_from ({[pair_key r]} ∪ seen) df'
  end.
Definition drop_duplicates (df : list mapping_record) : list mapping_record :=
  drop_duplicates_from ∅ df.

(** Sort key of [sort_values(["human_symbol", "mouse_symbol"])]. *)
Definition pair_leb (k1 k2 : string * string) : bool :=
  String.ltb k1.1 k2.1
  || (bool_decide (k1.1 = k2.1) && String.leb k1.2 k2.2).
Definition record_leb (r1 r2 : mapping_record) : bool :=
  pair_leb (pair_key r1) (pair_key r2).
Definition sort_values (df : list mapping_record) : list mapping_record :=
  sort_by record_leb df.

Section resolver.
(** The external gene-information service; [None] is a raised
    exception. *)
Variable querymany : species → list string → option (list query_hit).
Variable getgenes : species → list Z → option (list gene_hit).
(** [list(s)] for the set [s] of integers built by adding the given
    sequence of values. *)
Variable int_set_order : list Z → list Z.

(** Body of [for hit in results.get("out", [])]. *)
Definition record_hit (target : species)
    (acc : list (string * list Z) * list Z) (hit : query_hit)
    : list (string * list Z) * list Z :=
  let '(orthologs, all_target_ids) := acc in
  if hit_notfound hit then acc
  else
    let source_symbol := default (hit_query hit) (hit_symbol hit) in
    let target_ids :=
      snd <$> filter (λ g, g.1 = taxid target) (hit_genes hit) in
    (match target_ids with
     | [] => orthologs
     | _ :: _ => dict_set source_symbol target_ids orthologs
     end,
     all_target_ids ++ target_ids).

(** [fetch_homologene_mappings]; the second component is the sequence
    of values added to [all_target_ids].  The closing progress message
    divides by [len(genes)], so an empty gene list ends in an uncaught
    [ZeroDivisionError]: [None]. *)
Definition fetch_homologene_mappings (genes : list string)
    (source_species target_species : species)
    : option (list (string * list Z) * list Z) :=
  let acc :=
    fold_left
      (λ acc batch,
         match querymany source_species batch with
         | Some out => fold_left (record_hit target_species) out acc
         | None => acc
         end)
      (batches 500 genes) ([], []) in
  match genes with
  | [] => None
  | _ :: _ => Some acc
  end.

(** Body of [for hit in results] in [entrez_ids_to_symbols]. *)
Definition record_gene_hit (id_to_symbol : gmap Z string) (hit : gene_hit)
    : gmap Z string :=
  match gene_symbol hit, gene_id hit with
  | Some sym, Some id => <[id := sym]> id_to_symbol
  | _, _ => id_to_symbol
  end.

Definition entrez_ids_to_symbols (entrez_ids : list Z) (sp : species)
    : gmap Z string :=
  match entrez_ids with
  | [] => ∅
  | _ :: _ =>
      let unique_ids := int_set_order entrez_ids in
      fold_left
        (λ id_to_symbol batch,
           match getgenes sp batch with
           | Some results => fold_left record_gene_hit results id_to_symbol
           | None => id_to_symbol
           end)
        (batches 500 unique_ids) ∅
  end.

(** Phase 4, first loop. *)
Definition human_to_mouse_records
    (human_to_mouse_ids : list (string * list Z))
    (mouse_id_to_symbol : gmap Z string) : list mapping_record :=
  '(human_sym, mouse_ids) ← human_to_mouse_ids;
  mouse_id ← mouse_ids;
  match mouse_id_to_symbol !! mouse_id with
  | Some mouse_sym =>
      if decide (mouse_sym = "") then []
      else [MappingRecord (upper human_sym) mouse_sym None (Some mouse_id)
              "human_to_mouse"]
  | None => []
  end.

(** Phase 4, second loop. *)
Definition mouse_to_human_records
    (mouse_to_human_ids : list (string * list Z))
    (human_id_to_symbol : gmap Z string) : list mapping_record :=
  '(mouse_sym, human_ids) ← mouse_to_human_ids;
  human_id ← human_ids;
  match human_id_to_symbol !! human_id with
  | Some human_sym =>
      if decide (human_sym = "") then []
      else [MappingRecord (upper human_sym) mouse_sym (Some human_id) None
              "mouse_to_human"]
  | None => []
  end.

(** What follows the construction of [mapping_records]. *)
Definition finish_mapping (mapping_records : list mapping_record)
    : list mapping_record :=
  match mapping_records with
  | [] => []
  | _ :: _ => sort_values (drop_duplicates mapping_records)
  end.

(** [build_comprehensive_mapping], on the two gene sets in iteration
    order. *)
Definition build_comprehensive_mapping (human_genes mouse_genes : list string)
    : option (list mapping_record) :=
  let human_list := sort_by String.leb human_genes in
  let mouse_list := sort_by String.leb mouse_genes in
  '(human_to_mouse_ids, mouse_entrez_ids) ←
    fetch_homologene_mappings human_list human mouse;
  '(mouse_to_human_ids, human_entrez_ids) ←
    fetch_homologene_mappings mouse_list mouse human;
  let mouse_id_to_symbol :=
    entrez_ids_to_symbols (int_set_order mouse_entrez_ids) mouse in
  let human_id_to_symbol :=
    entrez_ids_to_symbols (int_set_order human_entrez_ids) human in
  Some (finish_mapping
          (human_to_mouse_records human_to_mouse_ids mouse_id_to_symbol
           ++ mouse_to_human_records mouse_to_human_ids human_id_to_symbol)).

(** [DataFrame.drop_duplicates()] on the two symbol columns. *)
Fixpoint drop_duplicate_pairs (seen : gset (string * string))
    (df : list (string * string)) : list (string * string) :=
  match df with
  | [] => []
  | r :: df' =>
      if decide (r ∈ seen) then drop_duplicate_pairs seen df'
      else r :: drop_duplicate_pairs ({[r]} ∪ seen) df'
  end.

(** [main]: the rows written to [orthology_mapping.csv]; [None] when
    the script stops with an error. *)
Definition main (human_genes mouse_genes : list string)
    : option (list (string * string)) :=
  match human_genes, mouse_genes with
  | [], [] => None
  | _, _ =>
      mapping_df ← build_comprehensive_mapping human_genes mouse_genes;
      match mapping_df with
      | [] => None
      | _ :: _ => Some (drop_duplicate_pairs ∅ (pair_key <$> mapping_df))
      end
  end.
End resolver.

End Homology.

(** ** Step 4: identifier annotation ([04_id_annotation.py]) *)

Module Annotation.

(** One element of [results['out']]: [ensembl_gene] is the [gene] entry
    of the hit's [ensembl] field (of its first element when that is a
    list), absent when the field or the entry is missing or empty. *)
Record ensembl_hit := EnsemblHit {
  hit_query : string;
  ensembl_gene : option string
}.

(** A row of the final table, in the order of [final_columns]. *)
Record annotated_row := AnnotatedRow {
  human_symbol : string;
  human_ensembl_id : option string;
  mouse_symbol : string;
  mouse_ensembl_id : option string;
  category : string;
  sources : string;
  evidence_score : nat
}.

Section annotator.
(** [mg.querymany(batch, scopes='symbol', fields='ensembl.gene', ...)];
    [None] is a raised exception. *)
Variable querymany : string → list string → option (list ensembl_hit).

Definition record_ensembl_hit (symbol_to_ensembl : gmap string string)
    (hit : ensembl_hit) : gmap string string :=
  match ensembl_gene hit with
  | Some gene_id => <[hit_query hit := gene_id]> symbol_to_ensembl
  | None => symbol_to_ensembl
  end.

(** [fetch_ensembl_ids_batched]; an empty cell of the table read back
    from CSV is a missing value and is filtered out with the blank
    symbols. *)
Definition fetch_ensembl_ids_batched (gene_symbols : list string)
    (species : string) : gmap string string :=
  let valid_symbols := filter (λ s, not_blank s = true) gene_symbols in
  match valid_symbols with
  | [] => ∅
  | _ :: _ =>
      let species_name :=
        if decide (species = "human") then "human" else "mouse" in
      fold_left
        (λ symbol_to_ensembl batch,
           match querymany species_name batch with
           | Some out => fold_left record_ensembl_hit out symbol_to_ensembl
           | None => symbol_to_ensembl
           end)
        (batches 200 valid_symbols) ∅
  end.

(** [Series.map(d)]: a missing value (an empty cell) stays missing. *)
Definition map_symbol (d : gmap string string) (sym : string)
    : option string :=
  if decide (sym = "") then None else d !! sym.

(** The table-transforming part of [main]: the frame saved as
    [final_apoptotic_gene_list.csv]. *)
Definition main (df : list Consolidation.gene_row) : list annotated_row :=
  let human_symbols := Consolidation.human_symbol <$> df in
  let human_ensembl_map := fetch_ensembl_ids_batched human_symbols "human" in
  let mouse_symbols := Consolidation.mouse_symbol <$> df in
  let mouse_ensembl_map := fetch_ensembl_ids_batched mouse_symbols "mouse" in
  (λ r,
     {| human_symbol := Consolidation.human_symbol r;
        human_ensembl_id :=
          map_symbol human_ensembl_map (Consolidation.human_symbol r);
        mouse_symbol := Consolidation.mouse_symbol r;
        mouse_ensembl_id :=
          map_symbol mouse_ensembl_map (Consolidation.mouse_symbol r);
        category := Consolidation.category r;
        sources := Consolidation.sources r;
        evidence_score := Consolidation.evidence_score r |}) <$> df.
End annotator.

End Annotation.

(** ** Step 5: per-source breakdown ([05_source_breakdown.py]) *)

Module Breakdown.

Definition SOURCE_PATTERNS : list (string * string) :=
  [("KEGG", "KEGG"); ("Reactome", "Reactome"); ("Hallmark", "Hallmark");
   ("GO", "GO_")].

Definition CATEGORY_ORDER : list string :=
  ["Pro-apoptotic"; "Anti-apoptotic"; "Ambiguous"; "Unspecified"].

(** [df[df['sources'].str.contains(pattern, na=False)]]; none of the
    configured patterns has a regular-expression metacharacter, so the
    match is substring containment. *)
Definition filter_by_source (df : list Annotation.annotated_row)
    (pattern : string) : list Annotation.annotated_row :=
  filter (λ r, str_contains pattern (Annotation.sources r) = true) df.

(** [add_category_stats]: the [stats] dict in insertion order. *)
Definition add_category_stats (df : list Annotation.annotated_row)
    : list (string * nat) :=
  ((λ cat, (cat, length (filter (λ r, Annotation.category r = cat) df)))
     <$> CATEGORY_ORDER)
  ++ [("Total", length df)].

(** A row after [df['category'] = pd.Categorical(...)]: the category is
    its position in the ordered categories, or a missing value. *)
Record categorical_row := CategoricalRow {
  fields : Annotation.annotated_row;
  category_code : option nat
}.

Fixpoint index_of (s : string) (l : list string) : option nat :=
  match l with
  | [] => None
  | s' :: l' => if decide (s = s') then Some 0 else S <$> index_of s l'
  end.

Definition to_categorical (r : Annotation.annotated_row) : categorical_row :=
  CategoricalRow r (index_of (Annotation.category r) CATEGORY_ORDER).

(** Sort key of [sort_values(['category', 'human_symbol'])]; missing
    values go last. *)
Definition categorical_leb (r1 r2 : categorical_row) : bool :=
  match category_code r1, category_code r2 with
  | Some c1, Some c2 =>
      bool_decide (c1 < c2)
      || (bool_decide (c1 = c2)
          && String.leb (Annotation.human_symbol (fields r1))
               (Annotation.human_symbol (fields r2)))
  | Some _, None => true
  | None, Some _ => false
  | None, None =>
      String.leb (Annotation.human_symbol (fields r1))
        (Annotation.human_symbol (fields r2))
  end.

Definition sort_by_category (df : list Annotation.annotated_row)
    : list categorical_row :=
  sort_by categorical_leb (to_categorical <$> df).

(** The category cell written by [to_csv]: the label of the code, empty
    for a missing value. *)
Definition category_label (r : categorical_row) : string :=
  match category_code r with
  | Some c => default "" (CATEGORY_ORDER !! c)
  | None => ""
  end.

(** The loop of [main]: per source label, the statistics and the frame
    saved by [save_source_breakdown]. *)
Definition main (df : list Annotation.annotated_row)
    : list (string * (list (string * nat) * list categorical_row)) :=
  (λ '(source_name, pattern),
     let df_source := filter_by_source df pattern in
     let stats := add_category_stats df_source in
     (source_name, (stats, sort_by_category df_source)))
  <$> SOURCE_PATTERNS.

(** [stats[cat]] *)
Definition stat (stats : list (string * nat)) (cat : string) : nat :=
  default 0 (dict_get cat stats).

End Breakdown.

(** ** Step 3, the summary ([generate_summary]) *)

Module Summary.

Definition score_geb (r1 r2 : Consolidation.gene_row) : bool :=
  Nat.leb (Consolidation.evidence_score r2) (Consolidation.evidence_score r1).

Section nlargest.

(** [Series.sort_values(ascending=False)] on the score column with the
    default sort kind, which is not stable: the rows by descending score,
    rows of equal score in an order that the sorting routine fixes. *)
Variable sort_values_descending
  : list Consolidation.gene_row → list Consolidation.gene_row.

(** [df.nlargest(n, 'evidence_score')], with the default [keep='first'].
    Nothing for [n <= 0].  For [n] from the number of rows on, the whole
    column is sorted by [sort_values] and cut to [n] rows.  Below that,
    the rows that reach the [n]-th largest score are put in descending
    order by a stable sort and the first [n] of them are kept: the first
    [n] rows of the table in stable descending order. *)
Definition nlargest (n : nat) (df : list Consolidation.gene_row)
    : list Consolidation.gene_row :=
  match n with
  | O => []
  | S _ =>
      if Nat.leb (length df) n then take n (sort_values_descending df)
      else take n (sort_by score_geb df)
  end.

(** [top_genes] *)
Definition top_genes (df : list Consolidation.gene_row)
    : list Consolidation.gene_row :=
  nlargest 20 df.

End nlargest.

End Summary.

(** ** Vocabulary of the statements *)

(** A profile that records evidence of at least one polarity. *)
Definition has_evidence (ev : Consolidation.evidence) : Prop :=
  Consolidation.pro_evidence ev ≠ ∅
  ∨ Consolidation.anti_evidence ev ≠ ∅
  ∨ Consolidation.general_evidence ev ≠ ∅.

(** What the filing loops maintain on the tracker: one entry per gene,
    each with some evidence. *)
Definition well_formed (ge : Consolidation.tracker) : Prop :=
  NoDup ge.*1 ∧ Forall (λ kv, has_evidence kv.2) ge.

(** Order of two rows of the consolidated table: the higher evidence score
    first, and for equal scores the symbols ascending in the code-point
    order after [key] has been applied to them. *)
Definition table_order (key : string → string)
    (r1 r2 : Consolidation.gene_row) : Prop :=
  Consolidation.evidence_score r2 < Consolidation.evidence_score r1
  ∨ (Consolidation.evidence_score r1 = Consolidation.evidence_score r2
     ∧ String.leb (key (Consolidation.human_symbol r1))
         (key (Consolidation.human_symbol r2)) = true).

(** Two symbols that differ in case only where it matters for the order:
    [Q] comes before [o], but [O] before [Q]. *)
Definition mixed_case_sources (name : string) : list string :=
  if decide (name = "GO_Pro_Human") then ["C1orf56"; "C1QBP"] else [].

(** The records that Phase 4 of [build_comprehensive_mapping] appends in
    its first loop (human-to-mouse lookup) and in its second loop
    (mouse-to-human lookup), in a run on the given gene sets. *)
Definition forward_records
    (querymany : Homology.species → list string
                 → option (list Homology.query_hit))
    (getgenes : Homology.species → list Z → option (list Homology.gene_hit))
    (int_set_order : list Z → list Z) (human_genes : list string)
    : list Homology.mapping_record :=
  match Homology.fetch_homologene_mappings querymany
          (sort_by String.leb human_genes) Homology.human Homology.mouse with
  | Some (human_to_mouse_ids, mouse_entrez_ids) =>
      Homology.human_to_mouse_records human_to_mouse_ids
        (Homology.entrez_ids_to_symbols getgenes int_set_order
           (int_set_order mouse_entrez_ids) Homology.mouse)
  | None => []
  end.

Definition backward_records
    (querymany : Homology.species → list string
                 → option (list Homology.query_hit))
    (getgenes : Homology.species → list Z → option (list Homology.gene_hit))
    (int_set_order : list Z → list Z) (mouse_genes : list string)
    : list Homology.mapping_record :=
  match Homology.fetch_homologene_mappings querymany
          (sort_by String.leb mouse_genes) Homology.mouse Homology.human with
  | Some (mouse_to_human_ids, human_entrez_ids) =>
      Homology.mouse_to_human_records mouse_to_human_ids
        (Homology.entrez_ids_to_symbols getgenes int_set_order
           (int_set_order human_entrez_ids) Homology.human)
  | None => []
  end.

(** The columns of a row of the final table that come from the
    consolidated table. *)
Definition strip_ensembl (r : Annotation.annotated_row)
    : Consolidation.gene_row :=
  Consolidation.GeneRow (Annotation.human_symbol r) (Annotation.mouse_symbol r)
    (Annotation.category r) (Annotation.sources r)
    (Annotation.evidence_score r).

(** The contribution of one filing step, and its effect on the tracker
    seen as a finite map. *)
Definition merge_evidence (d ev : Consolidation.evidence)
    : Consolidation.evidence :=
  Consolidation.Evidence
    (Consolidation.pro_evidence d ∪ Consolidation.pro_evidence ev)
    (Consolidation.anti_evidence d ∪ Consolidation.anti_evidence ev)
    (Consolidation.general_evidence d ∪ Consolidation.general_evidence ev)
    (Consolidation.mouse_symbols d ∪ Consolidation.mouse_symbols ev).

Definition upsert (m : gmap string Consolidation.evidence)
    (kd : string * Consolidation.evidence)
    : gmap string Consolidation.evidence :=
  <[kd.1 := merge_evidence kd.2
              (default Consolidation.new_evidence (m !! kd.1))]> m.

Definition is_merge (tag : Consolidation.evidence → Consolidation.evidence)
    (d : Consolidation.evidence) : Prop :=
  ∀ ev, tag ev = merge_evidence d ev.

Definition mouse_delta (mouse : string) : Consolidation.evidence :=
  Consolidation.Evidence ∅ ∅ ∅ {[mouse]}.

Definition human_deltas (o : Consolidation.orthology)
    (d : Consolidation.evidence) (gene : string)
    : list (string * Consolidation.evidence) :=
  (gene, d)
  :: ((λ mouse, (gene, mouse_delta mouse))
        <$> default [] (Consolidation.h2m o !! gene)).

Definition mouse_deltas (o : Consolidation.orthology)
    (d : Consolidation.evidence) (mouse_gene : string)
    : list (string * Consolidation.evidence) :=
  match Consolidation.m2h o !! mouse_gene with
  | Some human_gene => [(human_gene, d); (human_gene, mouse_delta mouse_gene)]
  | None => []
  end.

(** Steps 2 and 3 run one after the other on the raw gene sets: the
    consolidated table, or [None] when step 2 stops with an error. *)
Definition pipeline
    (querymany : Homology.species → list string → option (list Homology.query_hit))
    (getgenes : Homology.species → list Z → option (list Homology.gene_hit))
    (int_set_order : list Z → list Z)
    (human_genes mouse_genes : list string)
    (sources : string → list string)
    : option (list Consolidation.gene_row) :=
  pairs ← Homology.main querymany getgenes int_set_order
            human_genes mouse_genes;
  Consolidation.consolidate_genes
    (Consolidation.load_orthology_mapping pairs) sources.

(** A mocked gene-information service that knows TP53/Trp53 and BAX/Bax,
    and two enumerations of the same raw gene sets. *)
Definition mock_querymany (sp : Homology.species) (batch : list string)
    : option (list Homology.query_hit) :=
  Some ((λ q,
           match sp with
           | Homology.human =>
               if decide (q = "TP53")
               then Homology.QueryHit q false (Some "TP53")
                      [(10090, 22059); (9606, 7157)]%Z
               else if decide (q = "BAX")
               then Homology.QueryHit q false (Some "BAX") [(10090, 12028)]%Z
               else Homology.QueryHit q true None []
           | Homology.mouse =>
               if decide (q = "Trp53")
               then Homology.QueryHit q false (Some "Trp53") [(9606, 7157)]%Z
               else if decide (q = "Bax")
               then Homology.QueryHit q false (Some "Bax") [(9606, 581)]%Z
               else Homology.QueryHit q true None []
           end) <$> batch).

Definition mock_getgenes (sp : Homology.species) (batch : list Z)
    : option (list Homology.gene_hit) :=
  Some ((λ id,
           Homology.GeneHit (Some id)
             (if decide (id = 22059%Z) then Some "Trp53"
              else if decide (id = 7157%Z) then Some "TP53"
              else if decide (id = 12028%Z) then Some "Bax"
              else if decide (id = 581%Z) then Some "BAX"
              else None)) <$> batch).

Definition mock_int_set_order (ids : list Z) : list Z := remove_dups ids.

Definition run1_sources (name : string) : list string :=
  if decide (name = "GO_Pro_Human") then ["TP53"; "BAX"; "CASP3"]
  else if decide (name = "GO_Anti_Human") then ["BCL2"; "BAX"]
  else if decide (name = "GO_Anti_Mouse") then ["Bax"; "Trp53"]
  else if decide (name = "KEGG") then ["TP53"; "BCL2"; "CASP3"]
  else [].

Definition run2_sources (name : string) : list string :=
  if decide (name = "GO_Pro_Human") then ["CASP3"; "TP53"; "BAX"]
  else if decide (name = "GO_Anti_Human") then ["BAX"; "BCL2"]
  else if decide (name = "GO_Anti_Mouse") then ["Trp53"; "Bax"]
  else if decide (name = "KEGG") then ["BCL2"; "CASP3"; "TP53"]
  else [].

(** The table of the mixed-case run. *)
Definition mixed_case_table : list Consolidation.gene_row :=
  [Consolidation.GeneRow "C1QBP" "" "Pro-apoptotic" "GO_Pro_Human" 1;
   Consolidation.GeneRow "C1orf56" "" "Pro-apoptotic" "GO_Pro_Human" 1].

(** The pair table and the consolidated table of the mocked run. *)
Definition example_orthology : Consolidation.orthology :=
  Consolidation.load_orthology_mapping [("BAX", "Bax"); ("TP53", "Trp53")].

Definition example_table : list Consolidation.gene_row :=
  [Consolidation.GeneRow "BAX" "Bax" "Ambiguous"
     "GO_Anti_Human,GO_Anti_Mouse,GO_Pro_Human" 3;
   Consolidation.GeneRow "TP53" "Trp53" "Ambiguous"
     "GO_Anti_Mouse,GO_Pro_Human,KEGG" 3;
   Consolidation.GeneRow "BCL2" "" "Anti-apoptotic" "GO_Anti_Human,KEGG" 2;
   Consolidation.GeneRow "CASP3" "" "Pro-apoptotic" "GO_Pro_Human,KEGG" 2].

(** A mocked identifier service that knows two human genes. *)
Definition mock_ensembl (species : string) (batch : list string)
    : option (list Annotation.ensembl_hit) :=
  Some ((λ q,
           Annotation.EnsemblHit q
             (if decide (species = "human") then
                if decide (q = "TP53") then Some "ENSG00000141510"
                else if decide (q = "BAX") then Some "ENSG00000087088"
                else None
              else None)) <$> batch).

(** The scenarios of the specification. *)
Definition scenario_tp53_sources (name : string) : list string :=
  if decide (name = "GO_Pro_Human") then ["TP53"]
  else if decide (name = "GO_Anti_Human") then ["BCL2"]
  else if decide (name = "KEGG") then ["TP53"]
  else [].

Definition scenario_hallmark_sources (name : string) : list string :=
  if decide (name = "Hallmark") then ["X"] else [].

Definition scenario_bax_sources (name : string) : list string :=
  if decide (name = "GO_Anti_Mouse") then ["Bax"] else [].

(** The filing loops of [consolidate_genes] in the order they run: the
    source, whether its genes are mouse genes, and what a record of the
    source adds to a profile. *)
Definition filing_plan : list (string * bool * Consolidation.evidence) :=
  [("GO_Pro_Human", false, Consolidation.Evidence {["GO_Pro_Human"]} ∅ ∅ ∅);
   ("GO_Anti_Human", false, Consolidation.Evidence ∅ {["GO_Anti_Human"]} ∅ ∅);
   ("GO_Pro_Mouse", true, Consolidation.Evidence {["GO_Pro_Mouse"]} ∅ ∅ ∅);
   ("GO_Anti_Mouse", true, Consolidation.Evidence ∅ {["GO_Anti_Mouse"]} ∅ ∅);
   ("KEGG", false, Consolidation.Evidence ∅ ∅ {["KEGG"]} ∅);
   ("Reactome", false, Consolidation.Evidence ∅ ∅ {["Reactome"]} ∅);
   ("Hallmark", false, Consolidation.Evidence ∅ ∅ {["Hallmark"]} ∅)].

Definition all_deltas (o : Consolidation.orthology)
    (sources : string → list string)
    : list (string * Consolidation.evidence) :=
  '(name, from_mouse, d) ← filing_plan;
  gene ← sources name;
  if from_mouse : bool then mouse_deltas o d gene else human_deltas o d gene.

(** The sources whose genes are human symbols, and those whose genes are
    mouse symbols. *)
Definition human_source_names : list string :=
  ["GO_Pro_Human"; "GO_Anti_Human"; "KEGG"; "Reactome"; "Hallmark"].
Definition mouse_source_names : list string :=
  ["GO_Pro_Mouse"; "GO_Anti_Mouse"].

(** The sources without the records of one mouse symbol in the two mouse
    gene sets. *)
Definition without_mouse_record (sources : string → list string)
    (mouse_gene : string) (name : string) : list string :=
  if decide (name ∈ mouse_source_names)
  then filter (λ m, m ≠ mouse_gene) (sources name)
  else sources name.

(** A human symbol is filed directly when a human source lists it, and
    through a mouse symbol when a mouse source lists a symbol that the
    mouse-to-human lookup resolves to it. *)
Definition filed_directly (sources : string → list string) (h : string)
    : Prop :=
  ∃ name, name ∈ human_source_names ∧ h ∈ sources name.
Definition filed_through (o : Consolidation.orthology)
    (sources : string → list string) (h m : string) : Prop :=
  ∃ name, name ∈ mouse_source_names ∧ m ∈ sources name
          ∧ Consolidation.m2h o !! m = Some h.

(** A human symbol has pro-apoptotic (anti-apoptotic) evidence when the
    human GO source of that polarity lists it or the mouse GO source of
    that polarity lists a mouse symbol resolved to it. *)
Definition go_pro (o : Consolidation.orthology)
    (sources : string → list string) (h : string) : Prop :=
  h ∈ sources "GO_Pro_Human"
  ∨ ∃ m, m ∈ sources "GO_Pro_Mouse" ∧ Consolidation.m2h o !! m = Some h.
Definition go_anti (o : Consolidation.orthology)
    (sources : string → list string) (h : string) : Prop :=
  h ∈ sources "GO_Anti_Human"
  ∨ ∃ m, m ∈ sources "GO_Anti_Mouse" ∧ Consolidation.m2h o !! m = Some h.

(** The labels of the seven sources. *)
Definition source_labels : gset string :=
  list_to_set ["GO_Pro_Human"; "GO_Anti_Human"; "GO_Pro_Mouse";
               "GO_Anti_Mouse"; "KEGG"; "Reactome"; "Hallmark"].

(** The raw gene sets of the mocked run and the mapping table it gives. *)
Definition example_human_genes : list string := ["TP53"; "BAX"; "BCL2"; "CASP3"].
Definition example_mouse_genes : list string := ["Trp53"; "Bax"].
Definition example_mapping_table : list Homology.mapping_record :=
  [Homology.MappingRecord "BAX" "Bax" None (Some 12028%Z) "human_to_mouse";
   Homology.MappingRecord "TP53" "Trp53" None (Some 22059%Z) "human_to_mouse"].
Definition example_pairs : list (string * string) :=
  [("BAX", "Bax"); ("TP53", "Trp53")].


(** A gene-information service that is out of reach. *)
Definition unreachable_querymany (sp : Homology.species) (batch : list string)
    : option (list Homology.query_hit) := None.

(** An identifier service that is out of reach. *)
Definition unreachable_ensembl (species : string) (batch : list string)
    : option (list Annotation.ensembl_hit) := None.

(** A final table with a category that is none of the four. *)
Definition odd_final_table : list Annotation.annotated_row :=
  [Annotation.AnnotatedRow "TP53" None "Trp53" None "Pro-apoptotic"
     "GO_Pro_Human,KEGG" 2;
   Annotation.AnnotatedRow "ABC1" None "" None "Unknown" "KEGG" 1;
   Annotation.AnnotatedRow "BCL2" None "" None "Anti-apoptotic"
     "GO_Anti_Human,KEGG" 2].

(** A pair table as step 2 writes it for a human gene whose symbol has
    lower-case letters, and sources that list the gene under its own
    spelling. *)
Definition lower_case_pairs : list (string * string) :=
  [("C1ORF56", "1810030O07Rik")].
Definition lower_case_sources (name : string) : list string :=
  if decide (name = "KEGG") then ["C1orf56"]
  else if decide (name = "GO_Pro_Mouse") then ["1810030O07Rik"]
  else [].
Definition lower_case_table : list Consolidation.gene_row :=
  [Consolidation.GeneRow "C1ORF56" "1810030O07Rik" "Pro-apoptotic"
     "GO_Pro_Mouse" 1;
   Consolidation.GeneRow "C1orf56" "" "Unspecified" "KEGG" 1].

(** A sort by descending score that turns the order of rows of equal
    score round. *)
Definition reversed_ties_sort (l : list Consolidation.gene_row)
    : list Consolidation.gene_row :=
  sort_by Summary.score_geb (reverse l).

(** Twenty-one genes, GENEA to GENEU, that KEGG alone lists, and their
    table. *)
Definition gene_letter (i : nat) : string :=
  String.append "GENE" (String (ascii_of_nat (65 + i)) "").
Definition many_sources (name : string) : list string :=
  if decide (name = "KEGG") then gene_letter <$> seq 0 21 else [].
Definition many_table : list Consolidation.gene_row :=
  (λ i, Consolidation.GeneRow (gene_letter i) "" "Unspecified" "KEGG" 1)
    <$> seq 0 21.

(** No comma in a string. *)
Fixpoint comma_free (s : string) : bool :=
  match s with
  | EmptyString => true
  | String c s' => negb (Ascii.eqb c ",") && comma_free s'
  end.

(** * Properties *)

(** ** The stable sort *)

Section sort_facts.
Context {A : Type} (leb : A → A → bool).

Local Abbreviation R := (holds leb).

Lemma sort_insert_Permutation x l : sort_insert leb x l ≡ₚ x :: l.
Proof.
  induction l as [|y l IH]; simpl; [done|].
  destruct (leb x y); [done|]. by rewrite IH, Permutation_swap.
Qed.

Lemma sort_by_Permutation l : sort_by leb l ≡ₚ l.
Proof.
  induction l as [|x l IH]; simpl; [done|].
  by rewrite sort_insert_Permutation, IH.
Qed.

Lemma sort_by_elem_of x l : x ∈ sort_by leb l ↔ x ∈ l.
Proof. by rewrite sort_by_Permutation. Qed.

Lemma sort_by_length l : length (sort_by leb l) = length l.
Proof. by rewrite sort_by_Permutation. Qed.

Section ordered.
Hypothesis leb_total : ∀ x y, leb x y = true ∨ leb y x = true.
Hypothesis leb_trans :
  ∀ x y z, leb x y = true → leb y z = true → leb x z = true.

Lemma sort_insert_StronglySorted x l :
  StronglySorted R l → StronglySorted R (sort_insert leb x l).
Proof.
  induction 1 as [|y l Hl IH Hy]; simpl.
  { repeat constructor. }
  destruct (leb x y) eqn:Hxy.
  - constructor; [by constructor|].
    constructor; [done|].
    eapply Forall_impl; [exact Hy|]. intros z Hz. by eapply leb_trans.
  - constructor; [done|].
    rewrite sort_insert_Permutation. constructor; [|done].
    by destruct (leb_total x y) as [Hc|Hc]; [rewrite Hc in Hxy|].
Qed.

Lemma sort_by_StronglySorted l : StronglySorted R (sort_by leb l).
Proof.
  induction l; simpl; [constructor|by apply sort_insert_StronglySorted].
Qed.

(** Two enumerations of the same rows sort to the same table as soon
    as no two distinct rows compare equal. *)
Lemma sort_by_Permutation_eq l1 l2 :
  (∀ x y, x ∈ l1 → y ∈ l1 → leb x y = true → leb y x = true → x = y) →
  l1 ≡ₚ l2 → sort_by leb l1 = sort_by leb l2.
Proof.
  intros Hanti Hperm.
  apply (StronglySorted_unique_strong R);
    [|apply sort_by_StronglySorted..|by rewrite !sort_by_Permutation].
  intros x y Hx Hy. unfold holds. apply Hanti.
  - by rewrite sort_by_elem_of in Hx.
  - rewrite sort_by_elem_of in Hy. by rewrite Hperm.
Qed.
End ordered.
End sort_facts.

(** The code-point order on strings. *)
Lemma string_leb_total s1 s2 : String.leb s1 s2 = true ∨ String.leb s2 s1 = true.
Proof. apply String.leb_total. Qed.

Lemma string_leb_trans s1 s2 s3 :
  String.leb s1 s2 = true → String.leb s2 s3 = true → String.leb s1 s3 = true.
Proof.
  intros H1%Is_true_true H2%Is_true_true. apply Is_true_true.
  exact (transitivity (R:=String.le) H1 H2).
Qed.

Lemma string_leb_antisym s1 s2 :
  String.leb s1 s2 = true → String.leb s2 s1 = true → s1 = s2.
Proof. apply String.leb_antisym. Qed.

Lemma string_leb_refl s : String.leb s s = true.
Proof. apply Is_true_true. exact (reflexivity (R:=String.le) s). Qed.

Lemma sorted_strings_Permutation_eq (l1 l2 : list string) :
  l1 ≡ₚ l2 → sort_by String.leb l1 = sort_by String.leb l2.
Proof.
  apply sort_by_Permutation_eq;
    eauto using string_leb_total, string_leb_trans, string_leb_antisym.
Qed.

(** ** The evidence tracker *)

Section tracker_facts.
Import Consolidation.

Lemma dict_get_touch_eq k f (ge : tracker) :
  dict_get k (touch k f ge) = Some (f (default new_evidence (dict_get k ge))).
Proof.
  induction ge as [|[k' ev] ge IH]; simpl.
  - by rewrite decide_True.
  - destruct (decide (k = k')) as [->|Hne]; simpl.
    + by rewrite decide_True.
    + by rewrite decide_False.
Qed.

Lemma dict_get_touch_ne k k' f (ge : tracker) :
  k ≠ k' → dict_get k' (touch k f ge) = dict_get k' ge.
Proof.
  intros Hne. induction ge as [|[k'' ev] ge IH]; simpl.
  - by rewrite decide_False.
  - destruct (decide (k = k'')) as [->|?]; simpl.
    + by rewrite !decide_False.
    + by rewrite IH.
Qed.

Lemma dict_get_elem_of {V} k (v : V) d : dict_get k d = Some v → (k, v) ∈ d.
Proof.
  induction d as [|[k' v'] d IH]; simpl; [done|].
  destruct (decide (k = k')) as [->|?].
  - intros [= ->]. left.
  - intros ?. right. auto.
Qed.

Lemma elem_of_dict_get {V} k (v : V) d :
  NoDup d.*1 → (k, v) ∈ d → dict_get k d = Some v.
Proof.
  induction d as [|[k' v'] d IH]; simpl; [by intros _ ?%elem_of_nil|].
  intros [Hk' Hd]%NoDup_cons [[= -> ->]|Hin]%elem_of_cons.
  - by rewrite decide_True.
  - rewrite decide_False; [auto|].
    intros ->. apply Hk'. apply list_elem_of_fmap. by exists (k', v).
Qed.

(** A touched key is present afterwards, and no key is lost. *)
Lemma touch_keys k f (ge : tracker) :
  (touch k f ge).*1 = if decide (k ∈ ge.*1) then ge.*1 else ge.*1 ++ [k].
Proof.
  induction ge as [|[k' ev] ge IH].
  - cbn [touch fmap list_fmap fst].
    destruct (decide (k ∈ [])) as [Hin|?]; [by apply elem_of_nil in Hin|done].
  - cbn [touch]. destruct (decide (k = k')) as [->|Hne].
    + rewrite decide_True; [done|]. left.
    + rewrite !fmap_cons, IH. cbn [fst].
      destruct (decide (k ∈ ge.*1)) as [Hin|Hnin].
      * rewrite decide_True; [done|]. by right.
      * rewrite decide_False; [done|].
        by intros [?|?]%elem_of_cons.
Qed.

Lemma touch_NoDup k f (ge : tracker) : NoDup ge.*1 → NoDup (touch k f ge).*1.
Proof.
  intros Hnd. rewrite touch_keys. case_decide; [done|].
  apply NoDup_app. split_and!; [done| |apply NoDup_singleton].
  by intros x Hx ->%list_elem_of_singleton.
Qed.

Lemma touch_elem_of_key k f (ge : tracker) : k ∈ (touch k f ge).*1.
Proof.
  rewrite touch_keys. case_decide; [done|].
  apply elem_of_app. right. left.
Qed.

(** Invariants of the values: a mutation that establishes [P] on any
    entry, and one that preserves [P] on an entry that exists. *)
Lemma touch_Forall_new (P : evidence → Prop) k f (ge : tracker) :
  (∀ ev, P (f ev)) → Forall (λ kv, P kv.2) ge →
  Forall (λ kv, P kv.2) (touch k f ge).
Proof.
  intros Hf. induction 1 as [|[k' ev] ge Hev Hge IH]; simpl.
  - repeat constructor. apply Hf.
  - case_decide; constructor; simpl; auto.
Qed.

Lemma touch_Forall_old (P : evidence → Prop) k f (ge : tracker) :
  (∀ ev, P ev → P (f ev)) → k ∈ ge.*1 → Forall (λ kv, P kv.2) ge →
  Forall (λ kv, P kv.2) (touch k f ge).
Proof.
  intros Hf Hk Hge. revert Hk.
  induction Hge as [|[k' ev] ge Hev Hge IH]; simpl.
  - by intros ?%elem_of_nil.
  - intros Hk. case_decide as Hkk; constructor; simpl; auto.
    apply IH. by apply elem_of_cons in Hk as [?|?].
Qed.

(** The tracker seen as a finite map. *)
Lemma list_to_map_touch k f (ge : tracker) :
  list_to_map (touch k f ge) =@{gmap string evidence}
  <[k := f (default new_evidence
              (list_to_map (M:=gmap string evidence) ge !! k))]>
    (list_to_map ge).
Proof.
  induction ge as [|[k' ev] ge IH]; simpl; [done|].
  destruct (decide (k = k')) as [->|Hne]; simpl.
  - by rewrite lookup_insert_eq, insert_insert_eq.
  - rewrite IH, lookup_insert_ne by done. by apply insert_insert_ne.
Qed.
End tracker_facts.

(** ** Invariants of the filing loops *)

Lemma fold_left_invariant {A B} (P : A → Prop) (f : A → B → A) l a :
  P a → (∀ a b, P a → P (f a b)) → P (fold_left f l a).
Proof. intros Ha Hf. revert a Ha. induction l; simpl; auto. Qed.

Section filing_invariant.
Import Consolidation.

Lemma has_evidence_add_pro s ev : has_evidence (add_pro s ev).
Proof. left. simpl. set_solver. Qed.
Lemma has_evidence_add_anti s ev : has_evidence (add_anti s ev).
Proof. right. left. simpl. set_solver. Qed.
Lemma has_evidence_add_general s ev : has_evidence (add_general s ev).
Proof. right. right. simpl. set_solver. Qed.
Lemma has_evidence_add_mouse s ev :
  has_evidence ev → has_evidence (add_mouse s ev).
Proof. done. Qed.

Lemma well_formed_nil : well_formed [].
Proof. split; constructor. Qed.

Lemma touch_well_formed_new k tag ge :
  (∀ ev, has_evidence (tag ev)) → well_formed ge →
  well_formed (touch k tag ge).
Proof.
  intros Htag [Hnd Hev]. split.
  - by apply touch_NoDup.
  - by apply (touch_Forall_new has_evidence).
Qed.

Lemma touch_well_formed_mouse k m ge :
  k ∈ ge.*1 → well_formed ge → well_formed (touch k (add_mouse m) ge).
Proof.
  intros Hk [Hnd Hev]. split.
  - by apply touch_NoDup.
  - by apply (touch_Forall_old has_evidence).
Qed.

Lemma add_orthologs_well_formed o gene ge :
  gene ∈ ge.*1 → well_formed ge → well_formed (add_orthologs o gene ge).
Proof.
  intros Hk Hwf. unfold add_orthologs. destruct (h2m o !! gene); [|done].
  apply (fold_left_invariant (λ ge, gene ∈ ge.*1 ∧ well_formed ge));
    [done|].
  intros ge' m [Hk' Hwf']. split.
  - rewrite touch_keys. by rewrite decide_True.
  - by apply touch_well_formed_mouse.
Qed.

Lemma file_human_well_formed o tag ge gene :
  (∀ ev, has_evidence (tag ev)) → well_formed ge →
  well_formed (file_human o tag ge gene).
Proof.
  intros Htag Hwf. apply add_orthologs_well_formed.
  - apply touch_elem_of_key.
  - by apply touch_well_formed_new.
Qed.

Lemma file_mouse_well_formed o tag ge mouse_gene :
  (∀ ev, has_evidence (tag ev)) → well_formed ge →
  well_formed (file_mouse o tag ge mouse_gene).
Proof.
  intros Htag Hwf. unfold file_mouse.
  destruct (m2h o !! mouse_gene) as [human_gene|]; [|done].
  apply touch_well_formed_mouse.
  - apply touch_elem_of_key.
  - by apply touch_well_formed_new.
Qed.

Lemma aggregate_well_formed o sources : well_formed (aggregate o sources).
Proof.
  unfold aggregate.
  apply fold_left_invariant.
  2:{ intros ge name Hge. apply fold_left_invariant; [done|].
      intros. apply file_human_well_formed;
        auto using has_evidence_add_general. }
  repeat (apply fold_left_invariant;
          [|intros;
            first [apply file_human_well_formed
                  |apply file_mouse_well_formed];
            auto using has_evidence_add_pro, has_evidence_add_anti]).
  apply well_formed_nil.
Qed.
End filing_invariant.

(** ** Classification and evidence score *)

Section classification.
Import Consolidation.

Lemma size_pos_iff_non_empty (X : gset string) : 0 < size X ↔ X ≠ ∅.
Proof.
  split.
  - intros Hpos ->. rewrite size_empty in Hpos. lia.
  - intros Hne. destruct (size X) eqn:Hsz; [|lia].
    destruct Hne. apply leibniz_equiv. by apply size_empty_iff.
Qed.

(** The chain of tests of [categorize], read on the sets themselves. *)
Lemma categorize_cases ev :
  categorize ev =
    if decide (pro_evidence ev ≠ ∅) then
      if decide (anti_evidence ev ≠ ∅) then "Ambiguous" else "Pro-apoptotic"
    else if decide (anti_evidence ev ≠ ∅) then "Anti-apoptotic"
    else if decide (general_evidence ev ≠ ∅) then "Unspecified"
    else "Unknown".
Proof.
  unfold categorize.
  rewrite !(bool_decide_ext _ _ (size_pos_iff_non_empty _)).
  repeat case_decide;
    repeat (rewrite bool_decide_true by done
            || rewrite bool_decide_false by done); done.
Qed.

Lemma categorize_has_evidence ev :
  has_evidence ev →
  categorize ev ∈ ["Ambiguous"; "Pro-apoptotic"; "Anti-apoptotic";
                   "Unspecified"]
  ∧ categorize ev ≠ "Unknown".
Proof.
  intros Hev. rewrite categorize_cases.
  repeat case_decide; try (split; [repeat constructor|done]).
  by destruct Hev as [?|[?|?]].
Qed.

(** C1: a profile with evidence of at least one polarity gets exactly one
    of the four categories, chosen by first match: both pro and anti
    evidence gives Ambiguous, pro only Pro-apoptotic, anti only
    Anti-apoptotic, general evidence alone Unspecified. *)
Theorem classification_precedence (gene : string) (ev : evidence) :
  has_evidence ev →
  (pro_evidence ev ≠ ∅ ∧ anti_evidence ev ≠ ∅ →
     category (consolidate_row (gene, ev)) = "Ambiguous")
  ∧ (pro_evidence ev ≠ ∅ ∧ anti_evidence ev = ∅ →
     category (consolidate_row (gene, ev)) = "Pro-apoptotic")
  ∧ (pro_evidence ev = ∅ ∧ anti_evidence ev ≠ ∅ →
     category (consolidate_row (gene, ev)) = "Anti-apoptotic")
  ∧ (pro_evidence ev = ∅ ∧ anti_evidence ev = ∅ →
     general_evidence ev ≠ ∅
     ∧ category (consolidate_row (gene, ev)) = "Unspecified")
  ∧ category (consolidate_row (gene, ev))
      ∈ ["Ambiguous"; "Pro-apoptotic"; "Anti-apoptotic"; "Unspecified"].
Proof.
  intros Hev. cbn [consolidate_row category].
  pose proof (categorize_has_evidence ev Hev) as [Hin _].
  rewrite categorize_cases in *. split_and!; [..|done].
  - intros [??]. by rewrite !decide_True.
  - intros [? Hanti]. rewrite decide_True by done.
    rewrite decide_False; [done|]. by intros [].
  - intros [Hpro ?]. rewrite decide_False by (by intros []).
    by rewrite decide_True.
  - intros [Hpro Hanti].
    assert (general_evidence ev ≠ ∅) by (by destruct Hev as [?|[?|?]]).
    split; [done|].
    rewrite !decide_False by (by intros []). by rewrite decide_True.
Qed.

Lemma classification_precedence_witness :
  let ev := Evidence {["GO_Pro_Human"]} ∅ {["KEGG"]} ∅ in
  has_evidence ev
  ∧ category (consolidate_row ("TP53", ev)) = "Pro-apoptotic".
Proof.
  intros ev.
  assert (Hev : has_evidence ev) by (left; done).
  split; [exact Hev|].
  apply (classification_precedence "TP53" ev Hev). by split.
Defined.


Lemma consolidate_genes_Some o sources df :
  consolidate_genes o sources = Some df →
  df = sort_values (consolidated_data o sources).
Proof.
  unfold consolidate_genes.
  destruct (consolidated_data o sources); [done|]. by intros [= <-].
Qed.

Lemma elem_of_consolidate_genes r o sources df :
  consolidate_genes o sources = Some df →
  r ∈ df ↔
  ∃ gene ev, dict_get gene (aggregate o sources) = Some ev
             ∧ r = consolidate_row (gene, ev).
Proof.
  intros ->%consolidate_genes_Some. unfold consolidated_data, sort_values.
  rewrite sort_by_elem_of, list_elem_of_fmap. split.
  - intros [[gene ev] [-> Hin]]. exists gene, ev. split; [|done].
    apply elem_of_dict_get; [apply aggregate_well_formed|done].
  - intros (gene & ev & Hget & ->). exists (gene, ev).
    split; [done|]. by apply dict_get_elem_of.
Qed.



Lemma consolidated_categories o sources df :
  consolidate_genes o sources = Some df →
  Forall (λ r, category r ∈ ["Ambiguous"; "Pro-apoptotic";
                               "Anti-apoptotic"; "Unspecified"]
                 ∧ category r ≠ "Unknown")
    df.
Proof.
  intros Hdf. destruct (aggregate_well_formed o sources) as [Hnd Hev].
  apply Forall_forall.
  intros r (gene & ev & Hget%dict_get_elem_of & ->)
           %(elem_of_consolidate_genes _ _ _ _ Hdf).
  rewrite Forall_forall in Hev. specialize (Hev _ Hget). simpl in Hev.
  by apply categorize_has_evidence.
Qed.

(** C8: every profile left by the filing loops has evidence of at least
    one polarity, so no entry of the consolidated table falls through to
    the last branch of the classifier: its category is one of the four
    named ones. *)
Theorem aggregated_profiles_are_classified o sources df :
  consolidate_genes o sources = Some df →
  Forall (λ kv, has_evidence kv.2) (aggregate o sources)
  ∧ Forall (λ r, category r ∈ ["Ambiguous"; "Pro-apoptotic";
                               "Anti-apoptotic"; "Unspecified"]
                 ∧ category r ≠ "Unknown")
      df.
Proof.
  intros Hdf. split.
  - apply aggregate_well_formed.
  - by apply (consolidated_categories o sources).
Qed.

Lemma aggregated_profiles_are_classified_witness :
  consolidate_genes example_orthology run1_sources = Some example_table
  ∧ Forall (λ kv, has_evidence kv.2)
      (aggregate example_orthology run1_sources)
  ∧ Forall (λ r, category r ∈ ["Ambiguous"; "Pro-apoptotic";
                               "Anti-apoptotic"; "Unspecified"]
                 ∧ category r ≠ "Unknown")
      example_table.
Proof.
  assert (Hrun : consolidate_genes example_orthology run1_sources
                 = Some example_table) by (vm_compute; reflexivity).
  split; [exact Hrun|].
  exact (aggregated_profiles_are_classified example_orthology run1_sources
           example_table Hrun).
Defined.
End classification.

(** ** The scenarios of the specification, run *)

Example scenario_tp53 :
  Consolidation.consolidate_genes
    (Consolidation.load_orthology_mapping [("TP53", "Trp53")])
    scenario_tp53_sources
  = Some [Consolidation.GeneRow "TP53" "Trp53" "Pro-apoptotic"
            "GO_Pro_Human,KEGG" 2;
          Consolidation.GeneRow "BCL2" "" "Anti-apoptotic" "GO_Anti_Human" 1].
Proof. vm_compute. reflexivity. Qed.

Example scenario_hallmark_only :
  Consolidation.consolidate_genes (Consolidation.load_orthology_mapping [])
    scenario_hallmark_sources
  = Some [Consolidation.GeneRow "X" "" "Unspecified" "Hallmark" 1].
Proof. vm_compute. reflexivity. Qed.

Example scenario_bax :
  Consolidation.consolidate_genes
    (Consolidation.load_orthology_mapping [("BAX", "Bax")])
    scenario_bax_sources
  = Some [Consolidation.GeneRow "BAX" "Bax" "Anti-apoptotic"
            "GO_Anti_Mouse" 1].
Proof. vm_compute. reflexivity. Qed.

(** With no gene in any source there is no table to sort. *)
Example no_evidence_found :
  Consolidation.consolidate_genes
    (Consolidation.load_orthology_mapping [("BAX", "Bax")]) (λ _, [])
  = None.
Proof. reflexivity. Qed.

(** ** The ortholog index and the projection of mouse records *)

Section orthology_index.
Import Consolidation.

Lemma m2h_index_pair o human mouse :
  m2h (index_pair o (human, mouse)) = <[mouse := human]> (m2h o).
Proof. done. Qed.

(** Rows that do not mention a mouse symbol leave its entry alone. *)
Lemma m2h_fold_other df o mouse :
  mouse ∉ df.*2 → m2h (fold_left index_pair df o) !! mouse = m2h o !! mouse.
Proof.
  revert o. induction df as [|[h m] df IH]; intros o Hnin; [done|].
  rewrite fmap_cons, not_elem_of_cons in Hnin. destruct Hnin as [Hne Hnin].
  cbn [fold_left]. rewrite IH, m2h_index_pair by done.
  by rewrite lookup_insert_ne.
Qed.

(** C4: the mouse-to-human lookup has one value per mouse symbol, and
    when several rows of the pair table carry the same mouse symbol the
    value kept is the human symbol of the last such row. *)
Theorem reverse_index_last_write_wins
    (df1 df2 : list (string * string)) (human mouse : string) :
  mouse ∉ df2.*2 →
  ∀ human',
    m2h (load_orthology_mapping (df1 ++ (human, mouse) :: df2)) !! mouse
      = Some human'
    ↔ human' = human.
Proof.
  intros Hnin human'. unfold load_orthology_mapping.
  rewrite fold_left_app. cbn [fold_left].
  rewrite m2h_fold_other, m2h_index_pair, lookup_insert_eq by done.
  split; [by intros [= ->]|by intros ->].
Qed.

Lemma reverse_index_last_write_wins_witness :
  ("Bax" ∉ [("TP53", "Trp53")].*2)
  ∧ m2h (load_orthology_mapping
           ([("BAX", "Bax")] ++ ("BAXL", "Bax") :: [("TP53", "Trp53")]))
      !! "Bax" = Some "BAXL".
Proof.
  assert (Hnin : "Bax" ∉ [("TP53", "Trp53")].*2).
  { simpl. by intros [?|[]%elem_of_nil]%elem_of_cons. }
  split; [exact Hnin|].
  by apply (reverse_index_last_write_wins [("BAX", "Bax")]
              [("TP53", "Trp53")] "BAXL" "Bax" Hnin).
Defined.

(** One pass of the body of a mouse loop: a symbol without entry in the
    mouse-to-human lookup leaves the tracker as it was; otherwise the
    source label goes to the evidence set of the record's polarity in the
    profile of the human symbol found, the mouse symbol is added to that
    profile's mouse symbols, and nothing else changes. *)
Lemma file_mouse_step (o : orthology) (ge : tracker)
    (mouse_gene : string) :
  match m2h o !! mouse_gene with
  | None =>
      file_mouse o (add_pro "GO_Pro_Mouse") ge mouse_gene = ge
      ∧ file_mouse o (add_anti "GO_Anti_Mouse") ge mouse_gene = ge
  | Some human_gene =>
      let old := default new_evidence (dict_get human_gene ge) in
      dict_get human_gene
        (file_mouse o (add_pro "GO_Pro_Mouse") ge mouse_gene)
      = Some (Evidence ({["GO_Pro_Mouse"]} ∪ pro_evidence old)
                (anti_evidence old) (general_evidence old)
                ({[mouse_gene]} ∪ mouse_symbols old))
      ∧ dict_get human_gene
          (file_mouse o (add_anti "GO_Anti_Mouse") ge mouse_gene)
        = Some (Evidence (pro_evidence old)
                  ({["GO_Anti_Mouse"]} ∪ anti_evidence old)
                  (general_evidence old)
                  ({[mouse_gene]} ∪ mouse_symbols old))
      ∧ ∀ tag other,
          other ≠ human_gene →
          dict_get other (file_mouse o tag ge mouse_gene)
          = dict_get other ge
  end.
Proof.
  unfold file_mouse. destruct (m2h o !! mouse_gene) as [human_gene|]; [|done].
  cbn zeta. rewrite !dict_get_touch_eq. cbn [default].
  split_and!; [done..|].
  intros tag other Hne. by rewrite !dict_get_touch_ne.
Qed.
End orthology_index.

(** ** Order of the consolidated table *)

Section table_ordering.
Import Consolidation.

Lemma StronglySorted_impl {A} (R1 R2 : relation A) l :
  (∀ x y, R1 x y → R2 x y) → StronglySorted R1 l → StronglySorted R2 l.
Proof.
  intros HR. induction 1 as [|x l Hl IH Hx]; constructor; [done|].
  eapply Forall_impl; [exact Hx|]. auto.
Qed.

Lemma row_leb_table_order r1 r2 :
  row_leb r1 r2 = true ↔ table_order id r1 r2.
Proof.
  unfold row_leb, table_order, id.
  rewrite orb_true_iff, andb_true_iff, !bool_decide_eq_true. tauto.
Qed.

Lemma row_leb_total r1 r2 : row_leb r1 r2 = true ∨ row_leb r2 r1 = true.
Proof.
  rewrite !row_leb_table_order. unfold table_order, id.
  destruct (lt_eq_lt_dec (evidence_score r1) (evidence_score r2))
    as [[?|Heq]|?]; [auto..| |auto].
  destruct (string_leb_total (human_symbol r1) (human_symbol r2)); auto.
Qed.

Lemma row_leb_trans r1 r2 r3 :
  row_leb r1 r2 = true → row_leb r2 r3 = true → row_leb r1 r3 = true.
Proof.
  rewrite !row_leb_table_order. unfold table_order, id.
  intros [?|[? H12]] [?|[? H23]]; [left; lia..|].
  right. split; [lia|]. by eapply string_leb_trans.
Qed.

(** Rows with the same place in the order have the same symbol. *)
Lemma row_leb_antisym_symbol r1 r2 :
  row_leb r1 r2 = true → row_leb r2 r1 = true →
  human_symbol r1 = human_symbol r2.
Proof.
  rewrite !row_leb_table_order. unfold table_order, id.
  intros [?|[? H12]] [?|[? H21]]; [lia..|].
  by apply string_leb_antisym.
Qed.

Lemma human_symbol_consolidate_row (ge : tracker) :
  human_symbol <$> (consolidate_row <$> ge) = ge.*1.
Proof.
  rewrite <-list_fmap_compose. apply list_fmap_ext. by intros ? [??] ?.
Qed.

Lemma StronglySorted_impl_Forall {A} (P : A → Prop) (R1 R2 : relation A) l :
  (∀ x y, P x → P y → R1 x y → R2 x y) →
  Forall P l → StronglySorted R1 l → StronglySorted R2 l.
Proof.
  intros HR HP Hsorted. induction Hsorted as [|x l Hl IH Hx]; [constructor|].
  apply Forall_cons in HP as [HPx HPl]. constructor; [by apply IH|].
  rewrite Forall_forall in Hx, HPl |- *. intros y Hy.
  apply HR; [done|by apply HPl|by apply Hx].
Qed.

(** C3: the table is sorted on the symbols themselves: descending
    evidence score and, for equal scores, ascending symbol in code-point
    order.  On a table whose symbols are in upper case, as
    [load_source_file] documents the gene sets, this is the order of the
    claim, by the upper-cased symbol.  The code never upper-cases a symbol
    of a source, so for symbols with lower-case letters the order of the
    claim is missed (next lemma). *)
Theorem table_sorted_by_score_then_symbol o sources df :
  consolidate_genes o sources = Some df →
  StronglySorted (table_order id) df
  ∧ human_symbol <$> df ≡ₚ (aggregate o sources).*1
  ∧ (Forall (λ r, upper (human_symbol r) = human_symbol r) df →
     StronglySorted (table_order upper) df).
Proof.
  intros ->%consolidate_genes_Some.
  unfold consolidated_data, sort_values.
  assert (Hsorted : StronglySorted (table_order id)
                      (sort_by row_leb (consolidate_row <$> aggregate o sources))).
  { eapply StronglySorted_impl;
      [|apply sort_by_StronglySorted;
        [apply row_leb_total|apply row_leb_trans]].
    intros r1 r2. apply row_leb_table_order. }
  split_and!.
  - done.
  - by rewrite sort_by_Permutation, human_symbol_consolidate_row.
  - intros Hupper.
    eapply (StronglySorted_impl_Forall _ (table_order id)); [|done..].
    unfold table_order, id. intros r1 r2 -> ->. tauto.
Qed.

Lemma table_sorted_by_score_then_symbol_witness :
  consolidate_genes example_orthology run1_sources = Some example_table
  ∧ StronglySorted (table_order id) example_table
  ∧ human_symbol <$> example_table
    ≡ₚ (aggregate example_orthology run1_sources).*1
  ∧ StronglySorted (table_order upper) example_table.
Proof.
  assert (Hrun : consolidate_genes example_orthology run1_sources
                 = Some example_table) by (vm_compute; reflexivity).
  assert (Hupper : Forall (λ r, upper (human_symbol r) = human_symbol r)
                     example_table) by (repeat constructor).
  destruct (table_sorted_by_score_then_symbol example_orthology run1_sources
              example_table Hrun) as (Hid & Hperm & Hkey).
  split; [exact Hrun|]. split; [exact Hid|]. split; [exact Hperm|].
  exact (Hkey Hupper).
Defined.

(** C3 at the gene set [C1orf56], [C1QBP]: with the upper-cased symbol
    as sort key [C1orf56] has to precede [C1QBP]; the code puts [C1QBP]
    first. *)
Lemma upper_case_sort_key_refuted :
  ∃ df,
    consolidate_genes (load_orthology_mapping []) mixed_case_sources = Some df
    ∧ ¬ Sorted (table_order upper) df.
Proof.
  exists mixed_case_table. split; [by vm_compute|].
  unfold mixed_case_table. intros [_ Hhd]%Sorted_inv.
  apply HdRel_inv in Hhd as [Hlt|[_ Hle]]; simpl in *; [lia|].
  vm_compute in Hle. discriminate.
Qed.
End table_ordering.

(** ** Deduplication of ortholog pairs *)

Section deduplication.
Import Homology.

Lemma filter_drop_duplicates_from k seen df :
  filter (λ r, pair_key r = k) (drop_duplicates_from seen df)
  = if decide (k ∈ seen) then []
    else option_list (head (filter (λ r, pair_key r = k) df)).
Proof.
  revert seen. induction df as [|r df IH]; intros seen.
  { by case_decide. }
  cbn [drop_duplicates_from].
  destruct (decide (pair_key r ∈ seen)) as [Hseen|Hseen].
  - rewrite IH. case_decide as Hk; [done|].
    rewrite (filter_cons_False _ r); [done|]. by intros <-.
  - destruct (decide (pair_key r = k)) as [<-|Hne].
    + rewrite !filter_cons_True, IH by done.
      rewrite decide_True by set_solver. by rewrite decide_False.
    + rewrite !(filter_cons_False _ r), IH by done.
      destruct (decide (k ∈ seen)).
      * rewrite decide_True; [done|]. set_solver.
      * rewrite decide_False; [done|].
        rewrite elem_of_union, elem_of_singleton. by intros [?|?].
Qed.

(** After deduplication and sorting each pair occurs at most once, and
    the record kept is the first one that carried the pair. *)
Lemma filter_finish_mapping k df :
  filter (λ r, pair_key r = k) (finish_mapping df)
  = option_list (head (filter (λ r, pair_key r = k) df)).
Proof.
  assert (Hdd : filter (λ r, pair_key r = k) (drop_duplicates df)
                = option_list (head (filter (λ r, pair_key r = k) df))).
  { unfold drop_duplicates. rewrite filter_drop_duplicates_from.
    rewrite decide_False; [done|]. apply not_elem_of_empty. }
  unfold finish_mapping. destruct df as [|r0 df0]; [done|].
  rewrite <-Hdd. unfold sort_values.
  assert (Hperm : filter (λ r, pair_key r = k)
                    (sort_by record_leb (drop_duplicates (r0 :: df0)))
                  ≡ₚ filter (λ r, pair_key r = k)
                       (drop_duplicates (r0 :: df0)))
    by (by rewrite sort_by_Permutation).
  rewrite Hdd in Hperm |- *.
  destruct (head _) as [r|]; simpl in *.
  - by apply Permutation_singleton_r.
  - by apply Permutation_nil_r.
Qed.

Lemma drop_duplicates_from_idempotent seen df :
  drop_duplicates_from seen (drop_duplicates_from seen df)
  = drop_duplicates_from seen df.
Proof.
  assert (Hgen : ∀ seen seen', seen ⊆ seen' →
            (∀ k, k ∈ seen' → k ∉ seen →
                  k ∉ pair_key <$> drop_duplicates_from seen' df) →
            drop_duplicates_from seen (drop_duplicates_from seen' df)
            = drop_duplicates_from seen' df).
  { clear seen. induction df as [|r df IH]; intros seen seen' Hsub Hfresh;
      [done|]. revert Hfresh. cbn [drop_duplicates_from].
    destruct (decide (pair_key r ∈ seen')) as [Hin|Hnin]; intros Hfresh.
    - by apply IH.
    - cbn [drop_duplicates_from]. rewrite decide_False by set_solver.
      f_equal. apply IH; [by apply union_mono_l|].
      intros k Hk Hk'. apply elem_of_union in Hk as [Hk|Hk].
      { destruct Hk'. apply elem_of_union. by left. }
      intros Hin. apply (Hfresh k Hk).
      { intros ?. apply Hk', elem_of_union. by right. }
      rewrite fmap_cons. by right. }
  apply Hgen; [done|]. intros k Hk Hk'. done.
Qed.

Lemma human_to_mouse_records_source ids syms r :
  r ∈ human_to_mouse_records ids syms → mapping_source r = "human_to_mouse".
Proof.
  unfold human_to_mouse_records.
  intros ([human_sym mouse_ids] & Hr & _)%list_elem_of_bind.
  apply list_elem_of_bind in Hr as (mouse_id & Hr & _).
  destruct (syms !! mouse_id) as [mouse_sym|]; [|by apply elem_of_nil in Hr].
  case_decide; [by apply elem_of_nil in Hr|].
  by apply list_elem_of_singleton in Hr as ->.
Qed.

(** When a pair is carried by a record of the first list, the table made
    from the two lists holds exactly one record for it: the first one of
    the first list that carries it. *)
Lemma first_record_kept (forward backward : list mapping_record)
    (pair : string * string) :
  (∃ r1, r1 ∈ forward ∧ pair_key r1 = pair) →
  ∃ r,
    r ∈ forward
    ∧ filter (λ r, pair_key r = pair) (finish_mapping (forward ++ backward))
      = [r]
    ∧ head (filter (λ r, pair_key r = pair) (forward ++ backward)) = Some r.
Proof.
  intros (r1 & Hr1 & Hk1).
  assert (Hfirst : ∃ r, head (filter (λ r, pair_key r = pair) forward) = Some r).
  { destruct (filter (λ r, pair_key r = pair) forward) as [|r l] eqn:Hf;
      [|by exists r].
    assert (Hin : r1 ∈ filter (λ r, pair_key r = pair) forward)
      by (by apply list_elem_of_filter).
    rewrite Hf in Hin. by apply elem_of_nil in Hin. }
  destruct Hfirst as [r Hr]. exists r.
  assert (Hhead : head (filter (λ r, pair_key r = pair) (forward ++ backward))
                  = Some r).
  { rewrite filter_app.
    destruct (filter (λ r, pair_key r = pair) forward); simplify_eq/=. done. }
  split_and!.
  - apply head_Some_elem_of in Hr. by apply list_elem_of_filter in Hr as [_ ?].
  - by rewrite filter_finish_mapping, Hhead.
  - done.
Qed.
End deduplication.

(** ** Annotation *)

Section annotation.
Import Annotation.

(** C10: annotation keeps the rows of the classified table, in number,
    order and content: dropping the two Ensembl columns from the final
    table gives back the table that was read.  Each Ensembl column holds
    what the fetched map has for the row's symbol and is missing when the
    map has no entry. *)
Theorem annotation_extends_rows
    (querymany : string → list string → option (list ensembl_hit))
    (df : list Consolidation.gene_row) :
  strip_ensembl <$> main querymany df = df
  ∧ Forall
      (λ r,
         let human_ensembl_map :=
           fetch_ensembl_ids_batched querymany
             (Consolidation.human_symbol <$> df) "human" in
         let mouse_ensembl_map :=
           fetch_ensembl_ids_batched querymany
             (Consolidation.mouse_symbol <$> df) "mouse" in
         human_ensembl_id r = map_symbol human_ensembl_map (human_symbol r)
         ∧ mouse_ensembl_id r = map_symbol mouse_ensembl_map (mouse_symbol r)
         ∧ (human_ensembl_map !! human_symbol r = None →
            human_ensembl_id r = None)
         ∧ (mouse_ensembl_map !! mouse_symbol r = None →
            mouse_ensembl_id r = None))
      (main querymany df).
Proof.
  unfold main. split.
  - rewrite <-list_fmap_compose. etrans; [|apply (list_fmap_id df)].
    apply list_fmap_ext. by intros ? [] ?.
  - apply Forall_fmap, Forall_forall. intros r _. cbn.
    split_and!; [done..| |]; unfold map_symbol; intros ->; by case_decide.
Qed.
End annotation.

(** ** Per-source breakdown *)

Section breakdown.
Import Breakdown.

Lemma length_filter_cons {A} (P : A → Prop) `{∀ x, Decision (P x)} x l :
  length (filter P (x :: l))
  = (if decide (P x) then 1 else 0) + length (filter P l).
Proof. rewrite filter_cons. by case_decide. Qed.

Lemma category_counts_total (df : list Annotation.annotated_row) :
  Forall (λ r, Annotation.category r ∈ CATEGORY_ORDER) df →
  sum_list ((λ cat, length (filter (λ r, Annotation.category r = cat) df))
              <$> CATEGORY_ORDER)
  = length df.
Proof.
  induction 1 as [|r df Hr _ IH]; [done|].
  cbn [CATEGORY_ORDER fmap list_fmap sum_list sum_list_with] in *.
  rewrite !length_filter_cons. unfold id in *. cbn [length].
  unfold CATEGORY_ORDER in Hr.
  repeat (apply elem_of_cons in Hr as [Hr|Hr]);
    [..|by apply elem_of_nil in Hr];
    rewrite Hr; repeat case_decide; try done; lia.
Qed.

Lemma stat_category df cat :
  cat ∈ CATEGORY_ORDER →
  stat (add_category_stats df) cat
  = length (filter (λ r, Annotation.category r = cat) df).
Proof.
  unfold CATEGORY_ORDER. intros Hcat.
  repeat (apply elem_of_cons in Hcat as [->|Hcat]);
    [reflexivity..|by apply elem_of_nil in Hcat].
Qed.

Lemma category_label_to_categorical r :
  Annotation.category r ∈ CATEGORY_ORDER →
  category_label (to_categorical r) = Annotation.category r.
Proof.
  unfold category_label, to_categorical, CATEGORY_ORDER. cbn.
  intros Hcat.
  repeat (apply elem_of_cons in Hcat as [->|Hcat]);
    [reflexivity..|by apply elem_of_nil in Hcat].
Qed.
Lemma final_table_categories querymany o sources df :
  Consolidation.consolidate_genes o sources = Some df →
  Forall (λ r, Annotation.category r ∈ CATEGORY_ORDER)
    (Annotation.main querymany df).
Proof.
  intros Hdf. unfold Annotation.main. apply Forall_fmap.
  eapply Forall_impl; [by apply (consolidated_categories o sources)|].
  intros r [Hcat _]. cbn. unfold CATEGORY_ORDER.
  repeat (apply elem_of_cons in Hcat as [->|Hcat]);
    [..|by apply elem_of_nil in Hcat]; repeat constructor.
Qed.

Lemma fields_sort_by_category df :
  fields <$> sort_by_category df ≡ₚ df.
Proof.
  unfold sort_by_category. rewrite sort_by_Permutation.
  rewrite <-list_fmap_compose. by rewrite list_fmap_id.
Qed.

(** C9: on the final table of the pipeline, for every configured source
    label the four per-category counts of its statistics add up to the
    number of rows of the full table whose sources cell contains the
    label's pattern; the rows saved for the label are exactly those rows,
    and the category written for each is the one it has in the full
    table. *)
Theorem source_breakdown_consistent
    (querymany : string → list string → option (list Annotation.ensembl_hit))
    (o : Consolidation.orthology) (sources : string → list string)
    (df : list Consolidation.gene_row) :
  Consolidation.consolidate_genes o sources = Some df →
  let full := Annotation.main querymany df in
  Forall2
    (λ '(label, pattern) '(label', (stats, rows)),
       let matching :=
         filter (λ r, str_contains pattern (Annotation.sources r) = true) full
       in
       label' = label
       ∧ sum_list (stat stats <$> CATEGORY_ORDER) = length matching
       ∧ stat stats "Total" = length matching
       ∧ fields <$> rows ≡ₚ matching
       ∧ Forall (λ cr, category_label cr = Annotation.category (fields cr))
           rows)
    SOURCE_PATTERNS (main full).
Proof.
  intros Hdf full. unfold main. apply Forall2_fmap_r, Forall_Forall2_diag.
  apply Forall_forall. intros [label pattern] _. cbn zeta.
  fold (filter_by_source full pattern).
  assert (Hcats : Forall (λ r, Annotation.category r ∈ CATEGORY_ORDER)
                    (filter_by_source full pattern)).
  { apply Forall_forall. intros r [_ Hr]%list_elem_of_filter.
    pose proof (final_table_categories querymany o sources df Hdf) as Hall.
    rewrite Forall_forall in Hall. by apply Hall. }
  split_and!; [done| | | |].
  - rewrite <-(category_counts_total _ Hcats).
    apply (f_equal sum_list), list_fmap_ext. intros i cat Hcat.
    apply stat_category. by eapply list_elem_of_lookup_2.
  - reflexivity.
  - apply fields_sort_by_category.
  - apply Forall_forall. intros cr Hcr.
    unfold sort_by_category in Hcr. rewrite sort_by_elem_of in Hcr.
    apply list_elem_of_fmap in Hcr as (r & -> & Hr).
    apply category_label_to_categorical.
    rewrite Forall_forall in Hcats. by apply Hcats.
Qed.
Lemma source_breakdown_consistent_witness :
  Consolidation.consolidate_genes example_orthology run1_sources
  = Some example_table
  ∧ Forall2
      (λ '(label, pattern) '(label', (stats, rows)),
         let matching :=
           filter (λ r, str_contains pattern (Annotation.sources r) = true)
             (Annotation.main mock_ensembl example_table)
         in
         label' = label
         ∧ sum_list (stat stats <$> CATEGORY_ORDER) = length matching
         ∧ stat stats "Total" = length matching
         ∧ fields <$> rows ≡ₚ matching
         ∧ Forall (λ cr, category_label cr = Annotation.category (fields cr))
             rows)
      SOURCE_PATTERNS (main (Annotation.main mock_ensembl example_table)).
Proof.
  assert (Hrun : Consolidation.consolidate_genes example_orthology run1_sources
                 = Some example_table) by (vm_compute; reflexivity).
  split; [exact Hrun|].
  exact (source_breakdown_consistent mock_ensembl example_orthology
           run1_sources example_table Hrun).
Defined.
End breakdown.

(** ** Independence of the filing order *)

Section filing_order.
Import Consolidation.

Lemma merge_evidence_comm d1 d2 ev :
  merge_evidence d1 (merge_evidence d2 ev)
  = merge_evidence d2 (merge_evidence d1 ev).
Proof.
  unfold merge_evidence. cbn.
  f_equal; rewrite !(assoc_L (∪)); f_equal; apply (comm_L (∪)).
Qed.

Lemma upsert_comm m a b : upsert (upsert m a) b = upsert (upsert m b) a.
Proof.
  destruct a as [k1 d1], b as [k2 d2]. unfold upsert. cbn [fst snd].
  destruct (decide (k1 = k2)) as [->|Hne].
  - rewrite !lookup_insert_eq, !insert_insert_eq. cbn [default]. unfold id.
    by rewrite merge_evidence_comm.
  - rewrite !lookup_insert_ne by done. by apply insert_insert_ne.
Qed.

Lemma fold_left_upsert_Permutation ds ds' m :
  ds ≡ₚ ds' → fold_left upsert ds m = fold_left upsert ds' m.
Proof.
  intros Hperm. revert m.
  induction Hperm as [|x ds ds' _ IH|x y ds|ds1 ds2 ds3 _ IH1 _ IH2];
    intros m; cbn [fold_left].
  - done.
  - apply IH.
  - by rewrite upsert_comm.
  - by rewrite IH1.
Qed.

Lemma is_merge_add_pro s : is_merge (add_pro s) (Evidence {[s]} ∅ ∅ ∅).
Proof.
  intros ev. unfold add_pro, merge_evidence. cbn.
  by rewrite !(left_id_L ∅ (∪)).
Qed.
Lemma is_merge_add_anti s : is_merge (add_anti s) (Evidence ∅ {[s]} ∅ ∅).
Proof.
  intros ev. unfold add_anti, merge_evidence. cbn.
  by rewrite !(left_id_L ∅ (∪)).
Qed.
Lemma is_merge_add_general s : is_merge (add_general s) (Evidence ∅ ∅ {[s]} ∅).
Proof.
  intros ev. unfold add_general, merge_evidence. cbn.
  by rewrite !(left_id_L ∅ (∪)).
Qed.
Lemma is_merge_add_mouse s : is_merge (add_mouse s) (mouse_delta s).
Proof.
  intros ev. unfold add_mouse, merge_evidence, mouse_delta. cbn.
  by rewrite !(left_id_L ∅ (∪)).
Qed.

Local Abbreviation view := (list_to_map (M:=gmap string evidence)).

Lemma view_touch k tag d (ge : tracker) :
  is_merge tag d → view (touch k tag ge) = upsert (view ge) (k, d).
Proof. intros Htag. rewrite list_to_map_touch. unfold upsert. by rewrite Htag. Qed.

Lemma view_add_orthologs o gene (ge : tracker) :
  view (add_orthologs o gene ge)
  = fold_left upsert
      ((λ mouse, (gene, mouse_delta mouse)) <$> default [] (h2m o !! gene))
      (view ge).
Proof.
  unfold add_orthologs. destruct (h2m o !! gene) as [mice|]; [|done].
  cbn [default]. revert ge. induction mice as [|m mice IH]; intros ge; [done|].
  cbn [fold_left fmap list_fmap]. rewrite IH.
  by rewrite (view_touch _ _ _ _ (is_merge_add_mouse m)).
Qed.

Lemma view_file_human o tag d (ge : tracker) gene :
  is_merge tag d →
  view (file_human o tag ge gene)
  = fold_left upsert (human_deltas o d gene) (view ge).
Proof.
  intros Htag. unfold file_human, human_deltas.
  rewrite view_add_orthologs. cbn [fold_left].
  by rewrite (view_touch _ _ _ _ Htag).
Qed.

Lemma view_file_mouse o tag d (ge : tracker) mouse_gene :
  is_merge tag d →
  view (file_mouse o tag ge mouse_gene)
  = fold_left upsert (mouse_deltas o d mouse_gene) (view ge).
Proof.
  intros Htag. unfold file_mouse, mouse_deltas.
  destruct (m2h o !! mouse_gene) as [human_gene|]; [|done].
  cbn [fold_left].
  rewrite (view_touch _ _ _ _ (is_merge_add_mouse mouse_gene)).
  by rewrite (view_touch _ _ _ _ Htag).
Qed.

(** A whole filing loop contributes the deltas of its records. *)
Lemma view_fold_left (step : tracker → string → tracker)
    (deltas : string → list (string * evidence)) genes ge :
  (∀ ge gene, view (step ge gene) = fold_left upsert (deltas gene) (view ge)) →
  view (fold_left step genes ge)
  = fold_left upsert (genes ≫= deltas) (view ge).
Proof.
  intros Hstep. revert ge.
  induction genes as [|gene genes IH]; intros ge; [done|].
  cbn [fold_left]. rewrite IH, Hstep.
  change ((gene :: genes) ≫= deltas) with (deltas gene ++ (genes ≫= deltas)).
  by rewrite fold_left_app.
Qed.

Lemma view_fold_left_Permutation (step : tracker → string → tracker)
    (deltas : string → list (string * evidence)) genes genes' ge ge' :
  (∀ ge gene, view (step ge gene) = fold_left upsert (deltas gene) (view ge)) →
  genes ≡ₚ genes' → view ge = view ge' →
  view (fold_left step genes ge) = view (fold_left step genes' ge').
Proof.
  intros Hstep Hperm Hge.
  rewrite !(view_fold_left step deltas) by done. rewrite Hge.
  apply fold_left_upsert_Permutation. by rewrite Hperm.
Qed.

Lemma view_aggregate_Permutation o sources sources' :
  (∀ name, sources name ≡ₚ sources' name) →
  view (aggregate o sources) = view (aggregate o sources').
Proof.
  intros Hperm. unfold aggregate. cbn [fold_left].
  repeat first
    [ eapply view_fold_left_Permutation;
        [intros; first
           [ apply view_file_human;
             first [apply is_merge_add_pro | apply is_merge_add_anti
                   | apply is_merge_add_general]
           | apply view_file_mouse;
             first [apply is_merge_add_pro | apply is_merge_add_anti] ]
        | apply Hperm | ]
    | reflexivity ].
Qed.

Lemma aggregate_Permutation o sources sources' :
  (∀ name, sources name ≡ₚ sources' name) →
  aggregate o sources ≡ₚ aggregate o sources'.
Proof.
  intros Hperm.
  apply (list_to_map_inj (M:=gmap string)).
  - apply aggregate_well_formed.
  - apply aggregate_well_formed.
  - by apply view_aggregate_Permutation.
Qed.

Lemma consolidate_genes_Permutation o sources sources' :
  (∀ name, sources name ≡ₚ sources' name) →
  consolidate_genes o sources = consolidate_genes o sources'.
Proof.
  intros Hperm.
  assert (Hdata : consolidated_data o sources ≡ₚ consolidated_data o sources')
    by (unfold consolidated_data;
        by rewrite (aggregate_Permutation o sources sources')).
  assert (Hsort : sort_values (consolidated_data o sources)
                  = sort_values (consolidated_data o sources')).
  { unfold sort_values.
    apply sort_by_Permutation_eq;
      [apply row_leb_total|apply row_leb_trans| |done].
    intros x y [[k1 ev1] [-> H1]]%list_elem_of_fmap
      [[k2 ev2] [-> H2]]%list_elem_of_fmap Hxy Hyx.
    pose proof (row_leb_antisym_symbol _ _ Hxy Hyx) as Hk.
    cbn in Hk. subst k2.
    destruct (aggregate_well_formed o sources) as [Hnd _].
    apply (elem_of_dict_get _ _ _ Hnd) in H1, H2. congruence. }
  unfold consolidate_genes. rewrite Hsort.
  destruct (consolidated_data o sources), (consolidated_data o sources');
    try done.
  - by apply Permutation_nil_cons in Hdata.
  - symmetry in Hdata. by apply Permutation_nil_cons in Hdata.
Qed.
End filing_order.

(** ** Determinism of the pipeline *)

Section determinism.
Variable querymany :
  Homology.species → list string → option (list Homology.query_hit).
Variable getgenes :
  Homology.species → list Z → option (list Homology.gene_hit).
Variable int_set_order : list Z → list Z.

(** The resolver sorts its two gene sets before anything else. *)
Lemma build_comprehensive_mapping_Permutation
    (human_genes human_genes' mouse_genes mouse_genes' : list string) :
  human_genes ≡ₚ human_genes' → mouse_genes ≡ₚ mouse_genes' →
  Homology.build_comprehensive_mapping querymany getgenes int_set_order
    human_genes mouse_genes
  = Homology.build_comprehensive_mapping querymany getgenes int_set_order
      human_genes' mouse_genes'.
Proof.
  intros Hh Hm. unfold Homology.build_comprehensive_mapping.
  by rewrite (sorted_strings_Permutation_eq _ _ Hh),
    (sorted_strings_Permutation_eq _ _ Hm).
Qed.

Lemma homology_main_Permutation
    (human_genes human_genes' mouse_genes mouse_genes' : list string) :
  human_genes ≡ₚ human_genes' → mouse_genes ≡ₚ mouse_genes' →
  Homology.main querymany getgenes int_set_order human_genes mouse_genes
  = Homology.main querymany getgenes int_set_order human_genes' mouse_genes'.
Proof.
  intros Hh Hm. unfold Homology.main.
  rewrite (build_comprehensive_mapping_Permutation _ _ _ _ Hh Hm).
  destruct human_genes as [|h hs], human_genes' as [|h' hs'];
    try (by apply Permutation_nil_cons in Hh);
    try (by symmetry in Hh; apply Permutation_nil_cons in Hh);
    [|done].
  destruct mouse_genes as [|m ms], mouse_genes' as [|m' ms'];
    try (by apply Permutation_nil_cons in Hm);
    try (by symmetry in Hm; apply Permutation_nil_cons in Hm);
    done.
Qed.

(** C7: with the same answers of the external service, two runs of
    resolver, aggregator and classifier on the same raw gene sets give the
    same consolidated table (or stop with the same error), whatever the
    order in which each run enumerates the input gene sets and hence files
    the evidence. *)
Theorem pipeline_deterministic
    (human_genes human_genes' mouse_genes mouse_genes' : list string)
    (sources sources' : string → list string) :
  human_genes ≡ₚ human_genes' →
  mouse_genes ≡ₚ mouse_genes' →
  (∀ name, sources name ≡ₚ sources' name) →
  pipeline querymany getgenes int_set_order human_genes mouse_genes sources
  = pipeline querymany getgenes int_set_order human_genes' mouse_genes'
      sources'.
Proof.
  intros Hh Hm Hs. unfold pipeline.
  rewrite (homology_main_Permutation _ _ _ _ Hh Hm).
  destruct (Homology.main _ _ _ _ _) as [pairs|]; [|done].
  cbn [mbind option_bind].
  apply consolidate_genes_Permutation, Hs.
Qed.
End determinism.

Lemma run_sources_Permutation name : run1_sources name ≡ₚ run2_sources name.
Proof.
  unfold run1_sources, run2_sources.
  repeat case_decide; try done.
  - symmetry. apply (Permutation_cons_append ["TP53"; "BAX"] "CASP3").
  - apply perm_swap.
  - apply perm_swap.
  - apply (Permutation_cons_append ["BCL2"; "CASP3"] "TP53").
Qed.

Lemma pipeline_deterministic_witness :
  (["TP53"; "BAX"; "BCL2"; "CASP3"] ≡ₚ ["CASP3"; "BCL2"; "BAX"; "TP53"])
  ∧ (["Trp53"; "Bax"] ≡ₚ ["Bax"; "Trp53"])
  ∧ (∀ name, run1_sources name ≡ₚ run2_sources name)
  ∧ pipeline mock_querymany mock_getgenes mock_int_set_order
      ["TP53"; "BAX"; "BCL2"; "CASP3"] ["Trp53"; "Bax"] run1_sources
    = pipeline mock_querymany mock_getgenes mock_int_set_order
        ["CASP3"; "BCL2"; "BAX"; "TP53"] ["Bax"; "Trp53"] run2_sources.
Proof.
  assert (Hh : ["TP53"; "BAX"; "BCL2"; "CASP3"]
               ≡ₚ ["CASP3"; "BCL2"; "BAX"; "TP53"]).
  { change ["CASP3"; "BCL2"; "BAX"; "TP53"]
      with (reverse ["TP53"; "BAX"; "BCL2"; "CASP3"]).
    symmetry. apply reverse_Permutation. }
  assert (Hm : ["Trp53"; "Bax"] ≡ₚ ["Bax"; "Trp53"]) by apply perm_swap.
  split; [exact Hh|]. split; [exact Hm|].
  split; [exact run_sources_Permutation|].
  exact (pipeline_deterministic mock_querymany mock_getgenes
           mock_int_set_order _ _ _ _ _ _ Hh Hm run_sources_Permutation).
Defined.

(** The run of the witness, spelled out. *)
Example pipeline_run :
  pipeline mock_querymany mock_getgenes mock_int_set_order
    ["CASP3"; "BCL2"; "BAX"; "TP53"] ["Bax"; "Trp53"] run2_sources
  = Some [Consolidation.GeneRow "BAX" "Bax" "Ambiguous"
            "GO_Anti_Human,GO_Anti_Mouse,GO_Pro_Human" 3;
          Consolidation.GeneRow "TP53" "Trp53" "Ambiguous"
            "GO_Anti_Mouse,GO_Pro_Human,KEGG" 3;
          Consolidation.GeneRow "BCL2" "" "Anti-apoptotic"
            "GO_Anti_Human,KEGG" 2;
          Consolidation.GeneRow "CASP3" "" "Pro-apoptotic"
            "GO_Pro_Human,KEGG" 2].
Proof. vm_compute. reflexivity. Qed.

(** * Further properties of the workflow code *)

Open Scope nat_scope.

(** ** Batching of service requests *)

Section batching.
Context {A : Type}.

Lemma batches_from_spec (fuel n : nat) (l : list A) :
  0 < n → length l ≤ fuel →
  mjoin (batches_from fuel n l) = l
  ∧ Forall (λ b, 0 < length b ≤ n) (batches_from fuel n l)
  ∧ length (batches_from fuel n l) = (length l + n - 1) / n.
Proof.
  intros Hn. revert l. induction fuel as [|fuel IH]; intros l Hlen.
  { destruct l; [|simpl in Hlen; lia]. simpl.
    split_and!; [done|constructor|].
    symmetry. apply Nat.div_small. lia. }
  destruct l as [|x l].
  { simpl. split_and!; [done|constructor|].
    symmetry. apply Nat.div_small. lia. }
  cbn [batches_from].
  destruct (IH (drop n (x :: l))) as (Hjoin & Hall & Hcount).
  { rewrite length_drop. simpl in *. lia. }
  split_and!.
  - transitivity (take n (x :: l)
                  ++ mjoin (batches_from fuel n (drop n (x :: l))));
      [reflexivity|].
    rewrite Hjoin. apply take_drop.
  - constructor; [|done]. rewrite length_take. simpl. lia.
  - assert (Harith : ∀ k, 0 < k → S ((k - n + n - 1) / n) = (k + n - 1) / n).
    { intros k Hk. destruct (decide (n ≤ k)) as [Hle|Hgt].
      - replace (k + n - 1) with ((k - n + n - 1) + 1 * n) by lia.
        rewrite Nat.div_add by lia. lia.
      - replace (k - n) with 0 by lia.
        rewrite (Nat.div_small (0 + n - 1)) by lia.
        apply (Nat.div_unique _ _ 1 (k - 1)); lia. }
    change (S (length (batches_from fuel n (drop n (x :: l))))
            = (length (x :: l) + n - 1) / n).
    rewrite Hcount, length_drop. apply Harith. simpl. lia.
Qed.

(** X1: for a positive batch size the batches are the consecutive slices
    of the list: joined together they give the list back, none is empty or
    longer than the batch size, and there are
    [(len + batch_size - 1) // batch_size] of them. *)
Theorem batches_cover_the_list (n : nat) (l : list A) :
  0 < n →
  mjoin (batches n l) = l
  ∧ Forall (λ b, 0 < length b ≤ n) (batches n l)
  ∧ length (batches n l) = (length l + n - 1) / n.
Proof. intros Hn. by apply batches_from_spec. Qed.
End batching.

Lemma batches_cover_the_list_witness :
  0 < 2
  ∧ mjoin (batches 2 ["a"; "b"; "c"; "d"; "e"]) = ["a"; "b"; "c"; "d"; "e"]
  ∧ Forall (λ b, 0 < length b ≤ 2) (batches 2 ["a"; "b"; "c"; "d"; "e"])
  ∧ length (batches 2 ["a"; "b"; "c"; "d"; "e"]) = (5 + 2 - 1) / 2.
Proof.
  assert (Hn : 0 < 2) by lia.
  split; [exact Hn|].
  exact (batches_cover_the_list 2 ["a"; "b"; "c"; "d"; "e"] Hn).
Defined.

(** ** The two ortholog lookups *)

Section orthology_lookups.
Import Consolidation.

Lemma h2m_index_pair o human mouse h :
  h2m (index_pair o (human, mouse)) !! h
  = if decide (human = h) then Some (default [] (h2m o !! h) ++ [mouse])
    else h2m o !! h.
Proof.
  cbn [index_pair h2m]. destruct (decide (human = h)) as [->|Hne].
  - rewrite lookup_alter_eq. destruct (h2m o !! h) as [l|] eqn:Hl.
    + by rewrite Hl.
    + by rewrite lookup_insert_eq.
  - rewrite lookup_alter_ne by done.
    destruct (h2m o !! human); [done|]. by rewrite lookup_insert_ne.
Qed.

Lemma h2m_fold df o h :
  h2m (fold_left index_pair df o) !! h
  = match (filter (λ p, p.1 = h) df).*2 with
    | [] => h2m o !! h
    | mice => Some (default [] (h2m o !! h) ++ mice)
    end.
Proof.
  revert o. induction df as [|[a m] df IH]; intros o; [done|].
  cbn [fold_left]. rewrite IH, h2m_index_pair.
  destruct (decide (a = h)) as [->|Hne].
  - rewrite filter_cons_True by done. rewrite fmap_cons. cbn [snd default].
    destruct ((filter _ df).*2) as [|m' mice]; [done|].
    unfold id. by rewrite <-(assoc_L (++)).
  - by rewrite filter_cons_False by done.
Qed.

Lemma h2m_load df h :
  h2m (load_orthology_mapping df) !! h
  = match (filter (λ p, p.1 = h) df).*2 with
    | [] => None
    | mice => Some mice
    end.
Proof.
  unfold load_orthology_mapping. rewrite h2m_fold. cbn [h2m].
  rewrite lookup_empty. by destruct ((filter _ df).*2).
Qed.

(** X2: the human-to-mouse lookup maps a human symbol to the mouse symbols
    of all rows of the pair table that carry it, in row order, and has no
    entry for a human symbol that is in no row. *)
Theorem forward_index_collects_rows (df : list (string * string)) (h : string) :
  h2m (load_orthology_mapping df) !! h
  = match (filter (λ p, p.1 = h) df).*2 with
    | [] => None
    | mice => Some mice
    end.
Proof. apply h2m_load. Qed.

Lemma m2h_fold df o m :
  m2h (fold_left index_pair df o) !! m
  = match last (filter (λ p, p.2 = m) df).*1 with
    | Some human => Some human
    | None => m2h o !! m
    end.
Proof.
  revert o. induction df as [|[a b] df IH]; intros o; [done|].
  cbn [fold_left]. rewrite IH, m2h_index_pair.
  destruct (decide (b = m)) as [->|Hne].
  - rewrite filter_cons_True by done. cbn [fmap list_fmap fst].
    rewrite lookup_insert_eq. rewrite last_cons.
    by destruct (last _).
  - rewrite filter_cons_False by done. by rewrite lookup_insert_ne.
Qed.

Lemma m2h_load df m :
  m2h (load_orthology_mapping df) !! m = last (filter (λ p, p.2 = m) df).*1.
Proof.
  unfold load_orthology_mapping. rewrite m2h_fold. cbn [m2h].
  rewrite lookup_empty. by destruct (last _).
Qed.

(** X3: the mouse-to-human lookup has an entry exactly for the mouse
    symbols of the pair table, and what it answers is a row of the table:
    the human symbol found lists the mouse symbol among its orthologs in
    the human-to-mouse lookup. *)
Theorem reverse_index_agrees_with_forward
    (df : list (string * string)) (m : string) :
  (m2h (load_orthology_mapping df) !! m = None ↔ m ∉ df.*2)
  ∧ ∀ human,
      m2h (load_orthology_mapping df) !! m = Some human →
      (human, m) ∈ df
      ∧ ∃ mice, h2m (load_orthology_mapping df) !! human = Some mice
                ∧ m ∈ mice.
Proof.
  rewrite m2h_load. split.
  - rewrite last_None. split.
    + intros Hnil%fmap_nil_inv [[a b] [Hb Hin]]%list_elem_of_fmap.
      cbn in Hb. subst b.
      assert ((a, m) ∈ filter (λ p, p.2 = m) df) as Hf
        by (by apply list_elem_of_filter).
      rewrite Hnil in Hf. by apply elem_of_nil in Hf.
    + intros Hnin. destruct (filter _ df) as [|[a b] l] eqn:Hf; [done|].
      assert ((a, b) ∈ filter (λ p, p.2 = m) df) as [Hb Hin]%list_elem_of_filter
        by (rewrite Hf; left).
      destruct Hnin. apply list_elem_of_fmap. by exists (a, b).
  - intros human Hlast.
    assert ((human, m) ∈ df) as Hin.
    { apply last_Some in Hlast as [l' Hl'].
      assert (human ∈ (filter (λ p, p.2 = m) df).*1) as Hh
        by (rewrite Hl'; apply elem_of_app; right; left).
      apply list_elem_of_fmap in Hh
        as ([a b] & -> & [Hb Hin]%list_elem_of_filter).
      cbn in Hb. by subst b. }
    split; [done|].
    rewrite h2m_load.
    assert (m ∈ (filter (λ p, p.1 = human) df).*2) as Hm.
    { apply list_elem_of_fmap. exists (human, m). split; [done|].
      by apply list_elem_of_filter. }
    destruct ((filter _ df).*2) as [|m0 mice]; [by apply elem_of_nil in Hm|].
    by exists (m0 :: mice).
Qed.
End orthology_lookups.

(** ** What the filing loops leave in the tracker *)

Section aggregate_contents.
Import Consolidation.

Lemma dict_get_list_to_map {V} k (d : list (string * V)) :
  dict_get k d = list_to_map (M:=gmap string V) d !! k.
Proof.
  induction d as [|[k' v] d IH]; [done|]. cbn [dict_get list_to_map foldr].
  destruct (decide (k = k')) as [->|Hne].
  - by rewrite lookup_insert_eq.
  - by rewrite lookup_insert_ne.
Qed.

Lemma lookup_upsert m k d k' :
  upsert m (k, d) !! k'
  = if decide (k = k') then Some (merge_evidence d (default new_evidence (m !! k)))
    else m !! k'.
Proof.
  unfold upsert. cbn [fst snd]. destruct (decide (k = k')) as [->|Hne].
  - by rewrite lookup_insert_eq.
  - by rewrite lookup_insert_ne.
Qed.

Lemma lookup_fold_upsert_None ds m k :
  fold_left upsert ds m !! k = None ↔ m !! k = None ∧ k ∉ ds.*1.
Proof.
  revert m. induction ds as [|[k' d] ds IH]; intros m.
  { cbn. split; [intros ?; split; [done|apply not_elem_of_nil]|by intros []]. }
  cbn [fold_left]. rewrite IH, lookup_upsert, fmap_cons, not_elem_of_cons.
  cbn [fst]. destruct (decide (k' = k)) as [->|Hne].
  - split; [by intros [? _]|by intros [_ [[] _]]].
  - split; [by intros [? ?]|by intros [? [_ ?]]].
Qed.

(** Each of the four sets of a profile is the union of what the deltas
    filed under the gene contribute to it. *)
Lemma lookup_fold_upsert_field (proj : evidence → gset string) ds m k x :
  (∀ d ev, proj (merge_evidence d ev) = proj d ∪ proj ev) →
  proj new_evidence = ∅ →
  x ∈ proj (default new_evidence (fold_left upsert ds m !! k))
  ↔ x ∈ proj (default new_evidence (m !! k))
    ∨ ∃ d, (k, d) ∈ ds ∧ x ∈ proj d.
Proof.
  intros Hproj Hnew. revert m. induction ds as [|[k' d] ds IH]; intros m.
  { cbn. split; [by left|]. intros [?|(d & []%elem_of_nil & _)]. done. }
  cbn [fold_left]. rewrite IH, lookup_upsert.
  destruct (decide (k' = k)) as [->|Hne].
  - cbn [default]. unfold id. rewrite Hproj, elem_of_union. split.
    + intros [[Hx|Hx]|(d' & Hin & Hx)].
      * right. exists d. split; [left|done].
      * by left.
      * right. exists d'. split; [by right|done].
    + intros [Hx|(d' & [[= <-]|Hin]%elem_of_cons & Hx)].
      * left. by right.
      * left. by left.
      * right. by exists d'.
  - split.
    + intros [Hx|(d' & Hin & Hx)]; [by left|].
      right. exists d'. split; [by right|done].
    + intros [Hx|(d' & [[= ? ?]|Hin]%elem_of_cons & Hx)]; [by left|done|].
      right. by exists d'.
Qed.

Lemma all_deltas_blocks o sources :
  all_deltas o sources
  = (sources "GO_Pro_Human"
       ≫= human_deltas o (Evidence {["GO_Pro_Human"]} ∅ ∅ ∅))
    ++ (sources "GO_Anti_Human"
          ≫= human_deltas o (Evidence ∅ {["GO_Anti_Human"]} ∅ ∅))
    ++ (sources "GO_Pro_Mouse"
          ≫= mouse_deltas o (Evidence {["GO_Pro_Mouse"]} ∅ ∅ ∅))
    ++ (sources "GO_Anti_Mouse"
          ≫= mouse_deltas o (Evidence ∅ {["GO_Anti_Mouse"]} ∅ ∅))
    ++ (sources "KEGG" ≫= human_deltas o (Evidence ∅ ∅ {["KEGG"]} ∅))
    ++ (sources "Reactome" ≫= human_deltas o (Evidence ∅ ∅ {["Reactome"]} ∅))
    ++ (sources "Hallmark" ≫= human_deltas o (Evidence ∅ ∅ {["Hallmark"]} ∅))
    ++ [].
Proof. reflexivity. Qed.

Lemma view_aggregate o sources :
  list_to_map (M:=gmap string evidence) (aggregate o sources)
  = fold_left upsert (all_deltas o sources) ∅.
Proof.
  rewrite all_deltas_blocks, !fold_left_app.
  unfold aggregate. cbn [fold_left].
  repeat first
    [ rewrite (view_fold_left (file_human o _) (human_deltas o _))
        by (intros; apply view_file_human;
            first [apply is_merge_add_pro | apply is_merge_add_anti
                  | apply is_merge_add_general])
    | rewrite (view_fold_left (file_mouse o _) (mouse_deltas o _))
        by (intros; apply view_file_mouse;
            first [apply is_merge_add_pro | apply is_merge_add_anti]) ].
  done.
Qed.
Lemma elem_of_all_deltas o sources k dd :
  (k, dd) ∈ all_deltas o sources ↔
  ∃ name from_mouse d gene,
    (name, from_mouse, d) ∈ filing_plan ∧ gene ∈ sources name
    ∧ (k, dd) ∈ (if from_mouse : bool then mouse_deltas o d gene
                 else human_deltas o d gene).
Proof.
  unfold all_deltas. rewrite list_elem_of_bind. split.
  - intros ([[name fm] d] & (gene & Hin & Hg)%list_elem_of_bind & Hplan).
    by exists name, fm, d, gene.
  - intros (name & fm & d & gene & Hplan & Hg & Hin).
    exists (name, fm, d). split; [|done].
    apply list_elem_of_bind. by exists gene.
Qed.

Lemma elem_of_human_deltas o d gene k dd :
  (k, dd) ∈ human_deltas o d gene ↔
  k = gene
  ∧ (dd = d ∨ ∃ m mice, h2m o !! gene = Some mice ∧ m ∈ mice
                        ∧ dd = mouse_delta m).
Proof.
  unfold human_deltas. rewrite elem_of_cons, list_elem_of_fmap. split.
  - intros [[= -> ->]|(m & [= -> ->] & Hm)]; (split; [done|]); [by left|].
    right. destruct (h2m o !! gene) as [mice|]; [|by apply elem_of_nil in Hm].
    by exists m, mice.
  - intros [-> [->|(m & mice & Hmice & Hm & ->)]]; [by left|].
    right. exists m. split; [done|]. by rewrite Hmice.
Qed.

Lemma elem_of_mouse_deltas o d gene k dd :
  (k, dd) ∈ mouse_deltas o d gene ↔
  m2h o !! gene = Some k ∧ (dd = d ∨ dd = mouse_delta gene).
Proof.
  unfold mouse_deltas. destruct (m2h o !! gene) as [h|].
  - rewrite !elem_of_cons, elem_of_nil. split.
    + intros [[= -> ->]|[[= -> ->]|[]]]; auto.
    + intros [[= ->] [-> | ->]]; auto.
  - rewrite elem_of_nil. split; [done|by intros [? _]].
Qed.

Lemma plan_human name d :
  (name, false, d) ∈ filing_plan ↔
  (name = "GO_Pro_Human" ∧ d = Evidence {["GO_Pro_Human"]} ∅ ∅ ∅)
  ∨ (name = "GO_Anti_Human" ∧ d = Evidence ∅ {["GO_Anti_Human"]} ∅ ∅)
  ∨ (name = "KEGG" ∧ d = Evidence ∅ ∅ {["KEGG"]} ∅)
  ∨ (name = "Reactome" ∧ d = Evidence ∅ ∅ {["Reactome"]} ∅)
  ∨ (name = "Hallmark" ∧ d = Evidence ∅ ∅ {["Hallmark"]} ∅).
Proof.
  unfold filing_plan. rewrite !elem_of_cons, elem_of_nil. split.
  - intros [H|[H|[H|[H|[H|[H|[H|[]]]]]]]]; simplify_eq; tauto.
  - intros [[-> ->]|[[-> ->]|[[-> ->]|[[-> ->]|[-> ->]]]]]; tauto.
Qed.

Lemma plan_mouse name d :
  (name, true, d) ∈ filing_plan ↔
  (name = "GO_Pro_Mouse" ∧ d = Evidence {["GO_Pro_Mouse"]} ∅ ∅ ∅)
  ∨ (name = "GO_Anti_Mouse" ∧ d = Evidence ∅ {["GO_Anti_Mouse"]} ∅ ∅).
Proof.
  unfold filing_plan. rewrite !elem_of_cons, elem_of_nil. split.
  - intros [H|[H|[H|[H|[H|[H|[H|[]]]]]]]]; simplify_eq; tauto.
  - intros [[-> ->]|[-> ->]]; tauto.
Qed.

(** What is filed under a human symbol: the deltas of the human sources
    that list it, and of the mouse records that resolve to it. *)
Lemma aggregate_field (proj : evidence → gset string) o sources h x :
  (∀ d ev, proj (merge_evidence d ev) = proj d ∪ proj ev) →
  proj new_evidence = ∅ →
  x ∈ proj (default new_evidence (dict_get h (aggregate o sources)))
  ↔ (∃ name d, (name, false, d) ∈ filing_plan ∧ h ∈ sources name
               ∧ (x ∈ proj d
                  ∨ ∃ m mice, h2m o !! h = Some mice ∧ m ∈ mice
                              ∧ x ∈ proj (mouse_delta m)))
    ∨ (∃ name d m, (name, true, d) ∈ filing_plan ∧ m ∈ sources name
                   ∧ m2h o !! m = Some h
                   ∧ (x ∈ proj d ∨ x ∈ proj (mouse_delta m))).
Proof.
  intros Hproj Hnew.
  rewrite dict_get_list_to_map, view_aggregate.
  rewrite (lookup_fold_upsert_field proj) by done.
  rewrite lookup_empty. cbn [default]. rewrite Hnew. split.
  - intros [[]%not_elem_of_empty|(dd & Hin & Hx)].
    apply elem_of_all_deltas in Hin as (name & [|] & d & gene & Hplan & Hg & Hin).
    + apply elem_of_mouse_deltas in Hin as [Hm Hdd]. right.
      exists name, d, gene. split_and!; [done..|].
      destruct Hdd as [->| ->]; auto.
    + apply elem_of_human_deltas in Hin as [-> Hdd]. left.
      exists name, d. split_and!; [done..|].
      destruct Hdd as [->|(m & mice & ? & ? & ->)]; [by left|].
      right. by exists m, mice.
  - intros [(name & d & Hplan & Hg & Hx)|(name & d & m & Hplan & Hg & Hm & Hx)];
      right.
    + destruct Hx as [Hx|(m & mice & Hmice & Hm & Hx)].
      * exists d. split; [|done]. apply elem_of_all_deltas.
        exists name, false, d, h. split_and!; [done..|].
        apply elem_of_human_deltas. auto.
      * exists (mouse_delta m). split; [|done]. apply elem_of_all_deltas.
        exists name, false, d, h. split_and!; [done..|].
        apply elem_of_human_deltas. split; [done|]. right. by exists m, mice.
    + destruct Hx as [Hx|Hx].
      * exists d. split; [|done]. apply elem_of_all_deltas.
        exists name, true, d, m. split_and!; [done..|].
        apply elem_of_mouse_deltas. auto.
      * exists (mouse_delta m). split; [|done]. apply elem_of_all_deltas.
        exists name, true, d, m. split_and!; [done..|].
        apply elem_of_mouse_deltas. auto.
Qed.
Lemma proj_merge_pro d ev :
  pro_evidence (merge_evidence d ev) = pro_evidence d ∪ pro_evidence ev.
Proof. done. Qed.
Lemma proj_merge_anti d ev :
  anti_evidence (merge_evidence d ev) = anti_evidence d ∪ anti_evidence ev.
Proof. done. Qed.
Lemma proj_merge_general d ev :
  general_evidence (merge_evidence d ev)
  = general_evidence d ∪ general_evidence ev.
Proof. done. Qed.
Lemma proj_merge_mouse d ev :
  mouse_symbols (merge_evidence d ev) = mouse_symbols d ∪ mouse_symbols ev.
Proof. done. Qed.

Local Ltac label_cases Hx :=
  cbn [pro_evidence anti_evidence general_evidence mouse_symbols mouse_delta]
    in Hx;
  repeat match type of Hx with
    | _ ∨ _ => destruct Hx as [Hx|Hx]
    | ∃ _, _ => destruct Hx as (? & ? & _ & _ & Hx)
    end;
  try (by apply elem_of_empty in Hx);
  try apply elem_of_singleton in Hx.

Local Ltac plan_pick := repeat (first [by left | right]); try done.

Local Ltac label_in :=
  cbn [pro_evidence anti_evidence general_evidence mouse_symbols mouse_delta];
  by apply elem_of_singleton.

Lemma aggregate_pro o sources h label :
  label ∈ pro_evidence (default new_evidence (dict_get h (aggregate o sources)))
  ↔ (label = "GO_Pro_Human" ∧ h ∈ sources "GO_Pro_Human")
    ∨ (label = "GO_Pro_Mouse"
       ∧ ∃ m, m ∈ sources "GO_Pro_Mouse" ∧ m2h o !! m = Some h).
Proof.
  rewrite (aggregate_field pro_evidence) by done. split.
  - intros [(name & d & Hplan%plan_human & Hg & Hx)
           |(name & d & m & Hplan%plan_mouse & Hg & Hm & Hx)].
    + destruct Hplan as [[-> ->]|[[-> ->]|[[-> ->]|[[-> ->]|[-> ->]]]]];
        label_cases Hx. by left.
    + destruct Hplan as [[-> ->]|[-> ->]]; label_cases Hx.
      right. split; [done|]. by exists m.
  - intros [[-> Hg]|[-> (m & Hg & Hm)]].
    + left. eexists _, _. split; [by apply plan_human; left|].
      split; [done|]. left. label_in.
    + right. eexists _, _, m. split; [by apply plan_mouse; left|].
      split_and!; [done..|]. left. label_in.
Qed.

Lemma aggregate_anti o sources h label :
  label ∈ anti_evidence
            (default new_evidence (dict_get h (aggregate o sources)))
  ↔ (label = "GO_Anti_Human" ∧ h ∈ sources "GO_Anti_Human")
    ∨ (label = "GO_Anti_Mouse"
       ∧ ∃ m, m ∈ sources "GO_Anti_Mouse" ∧ m2h o !! m = Some h).
Proof.
  rewrite (aggregate_field anti_evidence) by done. split.
  - intros [(name & d & Hplan%plan_human & Hg & Hx)
           |(name & d & m & Hplan%plan_mouse & Hg & Hm & Hx)].
    + destruct Hplan as [[-> ->]|[[-> ->]|[[-> ->]|[[-> ->]|[-> ->]]]]];
        label_cases Hx. by left.
    + destruct Hplan as [[-> ->]|[-> ->]]; label_cases Hx.
      right. split; [done|]. by exists m.
  - intros [[-> Hg]|[-> (m & Hg & Hm)]].
    + left. eexists _, _. split; [by apply plan_human; right; left|].
      split; [done|]. left. label_in.
    + right. eexists _, _, m. split; [by apply plan_mouse; right|].
      split_and!; [done..|]. left. label_in.
Qed.

Lemma aggregate_general o sources h label :
  label ∈ general_evidence
            (default new_evidence (dict_get h (aggregate o sources)))
  ↔ label ∈ ["KEGG"; "Reactome"; "Hallmark"] ∧ h ∈ sources label.
Proof.
  rewrite (aggregate_field general_evidence) by done. split.
  - intros [(name & d & Hplan%plan_human & Hg & Hx)
           |(name & d & m & Hplan%plan_mouse & Hg & Hm & Hx)].
    + destruct Hplan as [[-> ->]|[[-> ->]|[[-> ->]|[[-> ->]|[-> ->]]]]];
        label_cases Hx; subst label; (split; [|done]);
        repeat first [apply list_elem_of_here | apply list_elem_of_further].
    + destruct Hplan as [[-> ->]|[-> ->]]; label_cases Hx.
  - intros [Hlabel Hg]. left.
    repeat (apply elem_of_cons in Hlabel as [->|Hlabel]);
      [..|by apply elem_of_nil in Hlabel];
      (match goal with Hg : _ ∈ sources ?n |- _ => exists n end);
      eexists;
      (split; [apply plan_human; plan_pick|]);
      (split; [done|]); left; label_in.
Qed.

Lemma aggregate_mouse o sources h m :
  m ∈ mouse_symbols (default new_evidence (dict_get h (aggregate o sources)))
  ↔ (filed_directly sources h
     ∧ ∃ mice, h2m o !! h = Some mice ∧ m ∈ mice)
    ∨ filed_through o sources h m.
Proof.
  rewrite (aggregate_field mouse_symbols) by done. split.
  - intros [(name & d & Hplan%plan_human & Hg & Hx)
           |(name & d & m' & Hplan%plan_mouse & Hg & Hm & Hx)].
    + left.
      assert (filed_directly sources h) as Hfiled.
      { exists name. split; [|done]. unfold human_source_names.
        destruct Hplan as [[-> _]|[[-> _]|[[-> _]|[[-> _]|[-> _]]]]];
          repeat first [apply list_elem_of_here | apply list_elem_of_further]. }
      split; [done|].
      destruct Hx as [Hx|(m0 & mice & Hmice & Hm0 & Hx)].
      * destruct Hplan as [[-> ->]|[[-> ->]|[[-> ->]|[[-> ->]|[-> ->]]]]];
          by apply elem_of_empty in Hx.
      * cbn in Hx. apply elem_of_singleton in Hx as ->. by exists mice.
    + right. exists name.
      assert (m = m') as ->.
      { destruct Hx as [Hx|Hx].
        - destruct Hplan as [[-> ->]|[-> ->]]; by apply elem_of_empty in Hx.
        - cbn in Hx. by apply elem_of_singleton in Hx. }
      split_and!; [|done..]. unfold mouse_source_names.
      destruct Hplan as [[-> _]|[-> _]];
        repeat first [apply list_elem_of_here | apply list_elem_of_further].
  - intros [[(name & Hname & Hg) (mice & Hmice & Hm)]|(name & Hname & Hg & Hm)].
    + left. unfold human_source_names in Hname.
      repeat (apply elem_of_cons in Hname as [->|Hname]);
        [..|by apply elem_of_nil in Hname];
        (match goal with Hg : _ ∈ sources ?n |- _ => exists n end);
        eexists;
        (split; [apply plan_human; plan_pick|]);
        (split; [done|]); right; exists m, mice;
        (split_and!; [done..|]); label_in.
    + right. unfold mouse_source_names in Hname.
      repeat (apply elem_of_cons in Hname as [->|Hname]);
        [..|by apply elem_of_nil in Hname];
        (match goal with Hg : _ ∈ sources ?n |- _ => exists n end);
        eexists _, m;
        (split; [apply plan_mouse; plan_pick|]);
        (split_and!; [done..|]); right; label_in.
Qed.

(** X4: for every human symbol, the pro, anti and general evidence sets
    filed under it hold exactly the labels of the sources that list it:
    a human GO source lists the symbol itself, a mouse GO source lists a
    mouse symbol that the mouse-to-human lookup resolves to it, and
    KEGG, Reactome and Hallmark list the symbol itself.  A symbol under
    which nothing is filed counts as having empty sets. *)
Theorem filed_evidence_matches_sources
    (o : orthology) (sources : string → list string) (h label : string) :
  let ev := default new_evidence (dict_get h (aggregate o sources)) in
  (label ∈ pro_evidence ev
   ↔ (label = "GO_Pro_Human" ∧ h ∈ sources "GO_Pro_Human")
     ∨ (label = "GO_Pro_Mouse"
        ∧ ∃ m, m ∈ sources "GO_Pro_Mouse" ∧ m2h o !! m = Some h))
  ∧ (label ∈ anti_evidence ev
     ↔ (label = "GO_Anti_Human" ∧ h ∈ sources "GO_Anti_Human")
       ∨ (label = "GO_Anti_Mouse"
          ∧ ∃ m, m ∈ sources "GO_Anti_Mouse" ∧ m2h o !! m = Some h))
  ∧ (label ∈ general_evidence ev
     ↔ label ∈ ["KEGG"; "Reactome"; "Hallmark"] ∧ h ∈ sources label).
Proof.
  intros ev. split_and!.
  - apply aggregate_pro.
  - apply aggregate_anti.
  - apply aggregate_general.
Qed.

(** X5: the mouse symbols filed under a human symbol are the orthologs
    that the human-to-mouse lookup lists for it, provided some human
    source lists the symbol, together with the mouse symbols of the mouse
    GO sources that the mouse-to-human lookup resolves to it. *)
Theorem filed_mouse_symbols
    (o : orthology) (sources : string → list string) (h m : string) :
  m ∈ mouse_symbols (default new_evidence (dict_get h (aggregate o sources)))
  ↔ (filed_directly sources h
     ∧ ∃ mice, h2m o !! h = Some mice ∧ m ∈ mice)
    ∨ filed_through o sources h m.
Proof. apply aggregate_mouse. Qed.

Lemma aggregate_keys o sources h :
  h ∈ (aggregate o sources).*1 ↔ h ∈ (all_deltas o sources).*1.
Proof.
  assert (h ∉ (aggregate o sources).*1 ↔ h ∉ (all_deltas o sources).*1)
    as Hiff.
  { rewrite (not_elem_of_list_to_map (M:=gmap string)), view_aggregate,
      lookup_fold_upsert_None, lookup_empty. tauto. }
  destruct (decide (h ∈ (aggregate o sources).*1)),
    (decide (h ∈ (all_deltas o sources).*1)); tauto.
Qed.

Lemma aggregate_present o sources h :
  h ∈ (aggregate o sources).*1
  ↔ filed_directly sources h ∨ ∃ m, filed_through o sources h m.
Proof.
  rewrite aggregate_keys, list_elem_of_fmap. split.
  - intros ([k dd] & -> & Hd). cbn [fst].
    apply elem_of_all_deltas in Hd as (name & [|] & d & gene & Hplan & Hg & Hd).
    + apply elem_of_mouse_deltas in Hd as [Hm _]. right. exists gene, name.
      split_and!; [|done..]. unfold mouse_source_names.
      apply plan_mouse in Hplan as [[-> _]|[-> _]];
        repeat first [apply list_elem_of_here | apply list_elem_of_further].
    + apply elem_of_human_deltas in Hd as [-> _]. left. exists name.
      split; [|done]. unfold human_source_names.
      apply plan_human in Hplan
        as [[-> _]|[[-> _]|[[-> _]|[[-> _]|[-> _]]]]];
        repeat first [apply list_elem_of_here | apply list_elem_of_further].
  - intros [(name & Hname & Hg)|(m & name & Hname & Hg & Hm)].
    + unfold human_source_names in Hname.
      repeat (apply elem_of_cons in Hname as [->|Hname]);
        [..|by apply elem_of_nil in Hname];
        (eexists (h, _); split; [done|]);
        apply elem_of_all_deltas;
        (match goal with Hg : _ ∈ sources ?n |- _ => exists n end);
        exists false; eexists _, h;
        (split; [apply plan_human; plan_pick|]);
        (split; [done|]); apply elem_of_human_deltas; (split; [done|]);
        by left.
    + unfold mouse_source_names in Hname.
      repeat (apply elem_of_cons in Hname as [->|Hname]);
        [..|by apply elem_of_nil in Hname];
        (eexists (h, _); split; [done|]);
        apply elem_of_all_deltas;
        (match goal with Hg : _ ∈ sources ?n |- _ => exists n end);
        exists true; eexists _, m;
        (split; [apply plan_mouse; plan_pick|]);
        (split; [done|]); apply elem_of_mouse_deltas; (split; [done|]);
        by left.
Qed.
Lemma fold_left_filter_skip {A} (f : A → string → A) (x : string) l a :
  (∀ a, f a x = a) →
  fold_left f (filter (λ y, y ≠ x) l) a = fold_left f l a.
Proof.
  intros Hskip. revert a. induction l as [|y l IH]; intros a; [done|].
  destruct (decide (y = x)) as [->|Hne].
  - rewrite filter_cons_False by (by intros ?). cbn [fold_left].
    by rewrite Hskip.
  - rewrite filter_cons_True by done. cbn [fold_left]. apply IH.
Qed.

Lemma aggregate_without_unresolved o sources mouse_gene :
  m2h o !! mouse_gene = None →
  aggregate o (without_mouse_record sources mouse_gene) = aggregate o sources.
Proof.
  intros Hnone.
  assert (Hskip : ∀ tag ge, file_mouse o tag ge mouse_gene = ge)
    by (intros tag ge; unfold file_mouse; by rewrite Hnone).
  unfold aggregate.
  change (without_mouse_record sources mouse_gene "GO_Pro_Human")
    with (sources "GO_Pro_Human").
  change (without_mouse_record sources mouse_gene "GO_Anti_Human")
    with (sources "GO_Anti_Human").
  change (without_mouse_record sources mouse_gene "GO_Pro_Mouse")
    with (filter (λ m, m ≠ mouse_gene) (sources "GO_Pro_Mouse")).
  change (without_mouse_record sources mouse_gene "GO_Anti_Mouse")
    with (filter (λ m, m ≠ mouse_gene) (sources "GO_Anti_Mouse")).
  cbn [fold_left].
  change (without_mouse_record sources mouse_gene "KEGG")
    with (sources "KEGG").
  change (without_mouse_record sources mouse_gene "Reactome")
    with (sources "Reactome").
  change (without_mouse_record sources mouse_gene "Hallmark")
    with (sources "Hallmark").
  by rewrite !(fold_left_filter_skip (file_mouse o _)) by (intros; apply Hskip).
Qed.

(** C5: for every record of the two mouse gene sets.  When the
    mouse-to-human lookup has no entry for its symbol, the record
    contributes nothing and raises no error: the tracker and the result of
    [consolidate_genes] are what they are without the record.  Otherwise
    the tracker that the filing loops build has a profile for the human
    symbol found; this profile holds the mouse symbol among its mouse
    symbols and the label of the record's source in the evidence set of
    the record's polarity, and a mouse label is in no set of another
    polarity.  Each pass of a mouse loop changes that one profile only. *)
Theorem mouse_record_projection (o : orthology)
    (sources : string → list string) (mouse_gene : string) :
  mouse_gene ∈ sources "GO_Pro_Mouse" ∨ mouse_gene ∈ sources "GO_Anti_Mouse" →
  match m2h o !! mouse_gene with
  | None =>
      aggregate o sources
      = aggregate o (without_mouse_record sources mouse_gene)
      ∧ consolidate_genes o sources
        = consolidate_genes o (without_mouse_record sources mouse_gene)
  | Some human_gene =>
      ∃ ev,
        dict_get human_gene (aggregate o sources) = Some ev
        ∧ mouse_gene ∈ mouse_symbols ev
        ∧ (mouse_gene ∈ sources "GO_Pro_Mouse" →
           "GO_Pro_Mouse" ∈ pro_evidence ev)
        ∧ (mouse_gene ∈ sources "GO_Anti_Mouse" →
           "GO_Anti_Mouse" ∈ anti_evidence ev)
        ∧ ("GO_Pro_Mouse" ∉ anti_evidence ev)
        ∧ ("GO_Pro_Mouse" ∉ general_evidence ev)
        ∧ ("GO_Anti_Mouse" ∉ pro_evidence ev)
        ∧ ("GO_Anti_Mouse" ∉ general_evidence ev)
  end
  ∧ ∀ ge : tracker,
      match m2h o !! mouse_gene with
      | None =>
          file_mouse o (add_pro "GO_Pro_Mouse") ge mouse_gene = ge
          ∧ file_mouse o (add_anti "GO_Anti_Mouse") ge mouse_gene = ge
      | Some human_gene =>
          let old := default new_evidence (dict_get human_gene ge) in
          dict_get human_gene
            (file_mouse o (add_pro "GO_Pro_Mouse") ge mouse_gene)
          = Some (Evidence ({["GO_Pro_Mouse"]} ∪ pro_evidence old)
                    (anti_evidence old) (general_evidence old)
                    ({[mouse_gene]} ∪ mouse_symbols old))
          ∧ dict_get human_gene
              (file_mouse o (add_anti "GO_Anti_Mouse") ge mouse_gene)
            = Some (Evidence (pro_evidence old)
                      ({["GO_Anti_Mouse"]} ∪ anti_evidence old)
                      (general_evidence old)
                      ({[mouse_gene]} ∪ mouse_symbols old))
          ∧ ∀ tag other,
              other ≠ human_gene →
              dict_get other (file_mouse o tag ge mouse_gene)
              = dict_get other ge
      end.
Proof.
  intros Hlisted. split; [|intros ge; apply file_mouse_step].
  destruct (m2h o !! mouse_gene) as [human_gene|] eqn:Hm2h.
  - assert (Hthrough : filed_through o sources human_gene mouse_gene).
    { unfold filed_through, mouse_source_names.
      destruct Hlisted as [Hin|Hin];
        [exists "GO_Pro_Mouse"|exists "GO_Anti_Mouse"];
        (split_and!; [|done..]);
        repeat first [apply list_elem_of_here | apply list_elem_of_further]. }
    assert (Hkey : human_gene ∈ (aggregate o sources).*1).
    { apply aggregate_present. right. by exists mouse_gene. }
    destruct (dict_get human_gene (aggregate o sources)) as [ev|] eqn:Hget.
    2:{ rewrite dict_get_list_to_map in Hget.
        by apply (not_elem_of_list_to_map (M:=gmap string)) in Hget. }
    exists ev.
    pose proof (aggregate_mouse o sources human_gene mouse_gene) as Hmouse.
    pose proof (aggregate_pro o sources human_gene) as Hpro.
    pose proof (aggregate_anti o sources human_gene) as Hanti.
    pose proof (aggregate_general o sources human_gene) as Hgen.
    rewrite Hget in Hmouse, Hpro, Hanti, Hgen. cbn [default] in *.
    split_and!.
    + done.
    + apply Hmouse. by right.
    + intros Hin. apply Hpro. right. split; [done|]. by exists mouse_gene.
    + intros Hin. apply Hanti. right. split; [done|]. by exists mouse_gene.
    + rewrite Hanti. by intros [[? _]|[? _]].
    + rewrite Hgen. intros [Hl _].
      repeat (apply elem_of_cons in Hl as [?|Hl]); [done..|].
      by apply elem_of_nil in Hl.
    + rewrite Hpro. by intros [[? _]|[? _]].
    + rewrite Hgen. intros [Hl _].
      repeat (apply elem_of_cons in Hl as [?|Hl]); [done..|].
      by apply elem_of_nil in Hl.
  - pose proof (aggregate_without_unresolved o sources mouse_gene Hm2h) as Heq.
    split; [done|].
    unfold consolidate_genes, consolidated_data. by rewrite Heq.
Qed.
Lemma mouse_record_projection_witness :
  ("Bax" ∈ run1_sources "GO_Pro_Mouse" ∨ "Bax" ∈ run1_sources "GO_Anti_Mouse")
  ∧ m2h example_orthology !! "Bax" = Some "BAX"
  ∧ ∃ ev,
      dict_get "BAX" (aggregate example_orthology run1_sources) = Some ev
      ∧ "Bax" ∈ mouse_symbols ev
      ∧ "GO_Anti_Mouse" ∈ anti_evidence ev
      ∧ "GO_Anti_Mouse" ∉ pro_evidence ev.
Proof.
  assert (Hlisted : "Bax" ∈ run1_sources "GO_Pro_Mouse"
                    ∨ "Bax" ∈ run1_sources "GO_Anti_Mouse").
  { right. vm_compute. left. }
  assert (Hm2h : m2h example_orthology !! "Bax" = Some "BAX")
    by (vm_compute; reflexivity).
  split; [exact Hlisted|]. split; [exact Hm2h|].
  destruct (mouse_record_projection example_orthology run1_sources "Bax"
              Hlisted) as [Hfiled _].
  rewrite Hm2h in Hfiled.
  destruct Hfiled as (ev & Hget & Hmouse & _ & Hanti & _ & _ & Hpro & _).
  exists ev. split; [exact Hget|]. split; [exact Hmouse|].
  split; [apply Hanti; vm_compute; left|exact Hpro].
Defined.
End aggregate_contents.

(** ** The consolidated table in terms of the sources *)

Section table_contents.
Import Consolidation.

Lemma consolidate_genes_symbols o sources df :
  consolidate_genes o sources = Some df →
  human_symbol <$> df ≡ₚ (aggregate o sources).*1.
Proof.
  intros ->%consolidate_genes_Some. unfold consolidated_data, sort_values.
  by rewrite sort_by_Permutation, human_symbol_consolidate_row.
Qed.

(** X6: the consolidated table has exactly one row for every human
    symbol that a human source lists or that a listed mouse symbol
    resolves to, and no other row. *)
Theorem one_row_per_filed_gene
    (o : orthology) (sources : string → list string) (df : list gene_row) :
  consolidate_genes o sources = Some df →
  NoDup (human_symbol <$> df)
  ∧ ∀ h, h ∈ human_symbol <$> df
         ↔ filed_directly sources h ∨ ∃ m, filed_through o sources h m.
Proof.
  intros Hdf. pose proof (consolidate_genes_symbols _ _ _ Hdf) as Hperm.
  split.
  - rewrite Hperm. apply aggregate_well_formed.
  - intros h. rewrite Hperm. apply aggregate_present.
Qed.

Lemma one_row_per_filed_gene_witness :
  consolidate_genes example_orthology run1_sources = Some example_table
  ∧ NoDup (human_symbol <$> example_table)
  ∧ ∀ h, h ∈ human_symbol <$> example_table
         ↔ filed_directly run1_sources h
           ∨ ∃ m, filed_through example_orthology run1_sources h m.
Proof.
  assert (Hrun : consolidate_genes example_orthology run1_sources
                 = Some example_table) by (vm_compute; reflexivity).
  split; [exact Hrun|].
  exact (one_row_per_filed_gene example_orthology run1_sources
           example_table Hrun).
Defined.

(** X7: [consolidate_genes] fails exactly when there is nothing to file:
    no human source lists a gene and no mouse symbol listed by a mouse
    source is resolved by the mouse-to-human lookup. *)
Theorem no_table_iff_nothing_filed
    (o : orthology) (sources : string → list string) :
  consolidate_genes o sources = None
  ↔ (∀ name, name ∈ human_source_names → sources name = [])
    ∧ (∀ name m, name ∈ mouse_source_names → m ∈ sources name →
                 m2h o !! m = None).
Proof.
  assert (consolidate_genes o sources = None ↔ aggregate o sources = [])
    as ->.
  { unfold consolidate_genes, consolidated_data.
    destruct (aggregate o sources); [done|]. by cbn. }
  split.
  - intros Hnil. split.
    + intros name Hname. destruct (sources name) as [|g gs] eqn:Hg; [done|].
      assert (g ∈ (aggregate o sources).*1) as Hin.
      { apply aggregate_present. left. exists name. split; [done|].
        rewrite Hg. left. }
      rewrite Hnil in Hin. by apply elem_of_nil in Hin.
    + intros name m Hname Hm. destruct (m2h o !! m) as [h|] eqn:Hh; [|done].
      assert (h ∈ (aggregate o sources).*1) as Hin.
      { apply aggregate_present. right. by exists m, name. }
      rewrite Hnil in Hin. by apply elem_of_nil in Hin.
  - intros [Hhuman Hmouse].
    destruct (aggregate o sources) as [|[h ev] ge] eqn:Hagg; [done|].
    assert (h ∈ (aggregate o sources).*1) as Hin by (rewrite Hagg; left).
    apply aggregate_present in Hin
      as [(name & Hname & Hg)|(m & name & Hname & Hg & Hm)].
    + rewrite (Hhuman name Hname) in Hg. by apply elem_of_nil in Hg.
    + by rewrite (Hmouse name m Hname Hg) in Hm.
Qed.

Lemma source_labels_size : size source_labels = 7.
Proof. by vm_compute. Qed.

Lemma all_sources_labels o sources h :
  all_sources (default new_evidence (dict_get h (aggregate o sources)))
  ⊆ source_labels.
Proof.
  intros x. unfold all_sources. rewrite !elem_of_union.
  rewrite aggregate_pro, aggregate_anti, aggregate_general.
  unfold source_labels. rewrite elem_of_list_to_set.
  intros [[[[]%elem_of_empty|[[-> _]|[-> _]]]|[[-> _]|[-> _]]]|[Hx _]];
    [..|repeat (apply elem_of_cons in Hx as [->|Hx]);
        [..|by apply elem_of_nil in Hx]];
    repeat first [apply list_elem_of_here | apply list_elem_of_further].
Qed.

(** X8: every row of the consolidated table has an evidence score between
    1 and 7, the number of sources. *)
Theorem evidence_score_bounds
    (o : orthology) (sources : string → list string) (df : list gene_row) :
  consolidate_genes o sources = Some df →
  Forall (λ r, 1 ≤ evidence_score r ≤ 7) df.
Proof.
  intros Hdf. apply Forall_forall.
  intros r (h & ev & Hget & ->)%(elem_of_consolidate_genes _ _ _ _ Hdf).
  cbn [consolidate_row evidence_score]. split.
  - destruct (aggregate_well_formed o sources) as [_ Hev].
    rewrite Forall_forall in Hev.
    specialize (Hev _ (dict_get_elem_of _ _ _ Hget)). cbn in Hev.
    apply size_pos_iff_non_empty. unfold all_sources.
    rewrite (left_id_L ∅ (∪)). intros Hempty.
    apply empty_union_L in Hempty as [[Hp Ha]%empty_union_L Hg].
    by destruct Hev as [?|[?|?]].
  - rewrite <-source_labels_size. apply subseteq_size.
    pose proof (all_sources_labels o sources h) as Hsub.
    by rewrite Hget in Hsub.
Qed.

Lemma evidence_score_bounds_witness :
  consolidate_genes example_orthology run1_sources = Some example_table
  ∧ Forall (λ r, 1 ≤ evidence_score r ≤ 7) example_table.
Proof.
  assert (Hrun : consolidate_genes example_orthology run1_sources
                 = Some example_table) by (vm_compute; reflexivity).
  split; [exact Hrun|].
  exact (evidence_score_bounds example_orthology run1_sources
           example_table Hrun).
Defined.
Lemma pro_non_empty o sources h :
  pro_evidence (default new_evidence (dict_get h (aggregate o sources))) ≠ ∅
  ↔ go_pro o sources h.
Proof.
  unfold go_pro. split.
  - intros [label Hl%aggregate_pro]%set_choose_L.
    destruct Hl as [[_ ?]|[_ ?]]; auto.
  - intros Hpro Hempty.
    assert (∃ label, label ∈ pro_evidence
              (default new_evidence (dict_get h (aggregate o sources))))
      as [label Hl].
    { destruct Hpro as [Hg|Hm].
      - exists "GO_Pro_Human". apply aggregate_pro. auto.
      - exists "GO_Pro_Mouse". apply aggregate_pro. auto. }
    rewrite Hempty in Hl. by apply elem_of_empty in Hl.
Qed.

Lemma anti_non_empty o sources h :
  anti_evidence (default new_evidence (dict_get h (aggregate o sources))) ≠ ∅
  ↔ go_anti o sources h.
Proof.
  unfold go_anti. split.
  - intros [label Hl%aggregate_anti]%set_choose_L.
    destruct Hl as [[_ ?]|[_ ?]]; auto.
  - intros Hanti Hempty.
    assert (∃ label, label ∈ anti_evidence
              (default new_evidence (dict_get h (aggregate o sources))))
      as [label Hl].
    { destruct Hanti as [Hg|Hm].
      - exists "GO_Anti_Human". apply aggregate_anti. auto.
      - exists "GO_Anti_Mouse". apply aggregate_anti. auto. }
    rewrite Hempty in Hl. by apply elem_of_empty in Hl.
Qed.

(** X9: the category of a row follows from the GO sources alone: it is
    Ambiguous when the gene has pro- and anti-apoptotic GO evidence,
    Pro-apoptotic or Anti-apoptotic when it has only the one, and
    Unspecified when it has neither, that is when only KEGG, Reactome or
    Hallmark list it. *)
Theorem category_from_sources
    (o : orthology) (sources : string → list string) (df : list gene_row) :
  consolidate_genes o sources = Some df →
  Forall
    (λ r,
       (category r = "Ambiguous"
        ↔ go_pro o sources (human_symbol r)
          ∧ go_anti o sources (human_symbol r))
       ∧ (category r = "Pro-apoptotic"
          ↔ go_pro o sources (human_symbol r)
            ∧ ¬ go_anti o sources (human_symbol r))
       ∧ (category r = "Anti-apoptotic"
          ↔ ¬ go_pro o sources (human_symbol r)
            ∧ go_anti o sources (human_symbol r))
       ∧ (category r = "Unspecified"
          ↔ ¬ go_pro o sources (human_symbol r)
            ∧ ¬ go_anti o sources (human_symbol r)))
    df.
Proof.
  intros Hdf. apply Forall_forall.
  intros r (h & ev & Hget & ->)%(elem_of_consolidate_genes _ _ _ _ Hdf).
  cbn [consolidate_row category human_symbol].
  pose proof (pro_non_empty o sources h) as Hpro.
  pose proof (anti_non_empty o sources h) as Hanti.
  rewrite Hget in Hpro, Hanti. cbn [default] in Hpro, Hanti.
  destruct (aggregate_well_formed o sources) as [_ Hev].
  rewrite Forall_forall in Hev.
  specialize (Hev _ (dict_get_elem_of _ _ _ Hget)). cbn in Hev.
  rewrite categorize_cases.
  destruct (decide (pro_evidence ev ≠ ∅)) as [Hp|Hp],
    (decide (anti_evidence ev ≠ ∅)) as [Ha|Ha];
    [| | |rewrite decide_True by (by destruct Hev as [?|[?|?]])];
    rewrite <-Hpro, <-Hanti; split_and!; split;
      try done; try (by intros [? ?]).
Qed.

Lemma category_from_sources_witness :
  consolidate_genes example_orthology run1_sources = Some example_table
  ∧ Forall
      (λ r,
         (category r = "Ambiguous"
          ↔ go_pro example_orthology run1_sources (human_symbol r)
            ∧ go_anti example_orthology run1_sources (human_symbol r))
         ∧ (category r = "Pro-apoptotic"
            ↔ go_pro example_orthology run1_sources (human_symbol r)
              ∧ ¬ go_anti example_orthology run1_sources (human_symbol r))
         ∧ (category r = "Anti-apoptotic"
            ↔ ¬ go_pro example_orthology run1_sources (human_symbol r)
              ∧ go_anti example_orthology run1_sources (human_symbol r))
         ∧ (category r = "Unspecified"
            ↔ ¬ go_pro example_orthology run1_sources (human_symbol r)
              ∧ ¬ go_anti example_orthology run1_sources (human_symbol r)))
      example_table.
Proof.
  assert (Hrun : consolidate_genes example_orthology run1_sources
                 = Some example_table) by (vm_compute; reflexivity).
  split; [exact Hrun|].
  exact (category_from_sources example_orthology run1_sources
           example_table Hrun).
Defined.
End table_contents.

(** ** The summary of the consolidated table *)

Section summary.
Import Consolidation.

Lemma sort_by_sorted {A} (leb : A → A → bool) l :
  StronglySorted (holds leb) l → sort_by leb l = l.
Proof.
  induction 1 as [|x l Hl IH Hx]; [done|].
  cbn [sort_by foldr]. fold (sort_by leb l). rewrite IH.
  destruct Hx as [|y l' Hxy _]; [done|]. cbn [sort_insert].
  unfold holds in Hxy. by rewrite Hxy.
Qed.

Lemma consolidate_genes_descending o sources df :
  consolidate_genes o sources = Some df →
  StronglySorted (holds Summary.score_geb) df.
Proof.
  intros ->%consolidate_genes_Some. unfold sort_values.
  eapply StronglySorted_impl;
    [|apply (sort_by_StronglySorted row_leb);
      [apply row_leb_total|apply row_leb_trans]].
  intros r1 r2 [Hlt|[Heq _]]%row_leb_table_order;
    unfold holds, Summary.score_geb; apply Nat.leb_le; lia.
Qed.

Lemma descending_scores_unique (l1 l2 : list gene_row) :
  StronglySorted (holds Summary.score_geb) l1 →
  StronglySorted (holds Summary.score_geb) l2 →
  l1 ≡ₚ l2 →
  evidence_score <$> l1 = evidence_score <$> l2.
Proof.
  intros H1 H2 Hperm.
  apply (StronglySorted_unique_strong (λ a b : nat, b ≤ a)).
  - intros; lia.
  - eapply (StronglySorted_fmap evidence_score); [|exact H1].
    intros x y. unfold holds, Summary.score_geb. apply Nat.leb_le.
  - eapply (StronglySorted_fmap evidence_score); [|exact H2].
    intros x y. unfold holds, Summary.score_geb. apply Nat.leb_le.
  - by rewrite Hperm.
Qed.

(** X10: the top genes of the summary, whatever order the library's
    unstable sort gives to rows of equal score.  For a consolidated table
    of more than twenty rows they are its first twenty rows, in the order
    of the table.  For a table of at most twenty rows they are all its
    rows by descending score, where rows of equal score need not keep the
    order of the table.  In both cases the scores listed are those of the
    first twenty rows of the table, in the same sequence. *)
Theorem top_genes_are_first_rows
    (sort_values_descending : list gene_row → list gene_row)
    (o : orthology) (sources : string → list string) (df : list gene_row) :
  (∀ l, sort_values_descending l ≡ₚ l) →
  (∀ l, StronglySorted (holds Summary.score_geb) (sort_values_descending l)) →
  consolidate_genes o sources = Some df →
  (20 < length df →
   Summary.top_genes sort_values_descending df = take 20 df)
  ∧ (length df ≤ 20 →
     Summary.top_genes sort_values_descending df ≡ₚ df
     ∧ StronglySorted (holds Summary.score_geb)
         (Summary.top_genes sort_values_descending df))
  ∧ evidence_score <$> Summary.top_genes sort_values_descending df
    = evidence_score <$> take 20 df.
Proof.
  intros Hperm Hsorted Hdesc%consolidate_genes_descending.
  unfold Summary.top_genes, Summary.nlargest. cbv beta iota.
  destruct (Nat.leb (length df) 20) eqn:Hlen.
  - apply Nat.leb_le in Hlen.
    assert (Hall : take 20 (sort_values_descending df)
                   = sort_values_descending df).
    { apply take_ge. by rewrite (Permutation_length (Hperm df)). }
    rewrite Hall, (take_ge df) by done. split_and!.
    + lia.
    + done.
    + by apply descending_scores_unique.
  - apply Nat.leb_gt in Hlen. rewrite (sort_by_sorted _ _ Hdesc).
    split_and!; [done|lia|done].
Qed.

Lemma top_genes_are_first_rows_witness :
  (∀ l, reversed_ties_sort l ≡ₚ l)
  ∧ (∀ l, StronglySorted (holds Summary.score_geb) (reversed_ties_sort l))
  ∧ consolidate_genes (load_orthology_mapping []) many_sources
    = Some many_table
  ∧ 20 < length many_table
  ∧ Summary.top_genes reversed_ties_sort many_table = take 20 many_table.
Proof.
  assert (Hperm : ∀ l, reversed_ties_sort l ≡ₚ l).
  { intros l. unfold reversed_ties_sort.
    by rewrite sort_by_Permutation, reverse_Permutation. }
  assert (Hsorted : ∀ l, StronglySorted (holds Summary.score_geb)
                           (reversed_ties_sort l)).
  { intros l. apply sort_by_StronglySorted.
    - intros r1 r2. unfold Summary.score_geb. rewrite !Nat.leb_le. lia.
    - intros r1 r2 r3. unfold Summary.score_geb. rewrite !Nat.leb_le. lia. }
  assert (Hrun : consolidate_genes (load_orthology_mapping []) many_sources
                 = Some many_table) by (vm_compute; reflexivity).
  assert (Hlen : 20 < length many_table) by (vm_compute; lia).
  split; [exact Hperm|]. split; [exact Hsorted|]. split; [exact Hrun|].
  split; [exact Hlen|].
  destruct (top_genes_are_first_rows reversed_ties_sort
              (load_orthology_mapping []) many_sources many_table
              Hperm Hsorted Hrun) as [Hfirst _].
  exact (Hfirst Hlen).
Defined.

(** On a table of four rows, the sort that turns ties round lists the top
    genes in another order than the table has them. *)
Example top_genes_ties_may_move :
  consolidate_genes example_orthology run1_sources = Some example_table
  ∧ Summary.top_genes reversed_ties_sort example_table
    ≠ take 20 example_table.
Proof. split; [by vm_compute|]. vm_compute. discriminate. Qed.
End summary.

(** ** The mapping table of the resolver *)

Section mapping_table.
Import Homology.

Lemma string_ltb_leb s1 s2 :
  String.ltb s1 s2 = true ↔ String.leb s1 s2 = true ∧ s1 ≠ s2.
Proof.
  unfold String.ltb, String.leb.
  destruct (String.compare s1 s2) eqn:Hc.
  - apply String.compare_eq_iff in Hc as ->. split; [done|by intros [_ []]].
  - split; [|done]. intros _. split; [done|]. intros ->.
    pose proof (String.compare_antisym s2 s2) as Hanti.
    rewrite Hc in Hanti. discriminate.
  - split; [done|by intros [? _]].
Qed.

Lemma pair_leb_spec k1 k2 :
  pair_leb k1 k2 = true
  ↔ (String.leb k1.1 k2.1 = true ∧ k1.1 ≠ k2.1)
    ∨ (k1.1 = k2.1 ∧ String.leb k1.2 k2.2 = true).
Proof.
  unfold pair_leb.
  rewrite orb_true_iff, andb_true_iff, bool_decide_eq_true, string_ltb_leb.
  done.
Qed.

Lemma pair_leb_total k1 k2 : pair_leb k1 k2 = true ∨ pair_leb k2 k1 = true.
Proof.
  rewrite !pair_leb_spec.
  destruct (decide (k1.1 = k2.1)) as [Heq|Hne].
  - destruct (string_leb_total k1.2 k2.2); auto.
  - destruct (string_leb_total k1.1 k2.1); auto.
Qed.

Lemma pair_leb_trans k1 k2 k3 :
  pair_leb k1 k2 = true → pair_leb k2 k3 = true → pair_leb k1 k3 = true.
Proof.
  rewrite !pair_leb_spec.
  intros [[H12 Hne12]|[Heq12 H12]] [[H23 Hne23]|[Heq23 H23]].
  - left. split; [by eapply string_leb_trans|].
    intros Heq. rewrite <-Heq in H23.
    by pose proof (string_leb_antisym _ _ H12 H23).
  - left. by rewrite <-Heq23.
  - left. by rewrite Heq12.
  - right. split; [congruence|by eapply string_leb_trans].
Qed.

Lemma pair_leb_antisym k1 k2 :
  pair_leb k1 k2 = true → pair_leb k2 k1 = true → k1 = k2.
Proof.
  rewrite !pair_leb_spec. destruct k1 as [h1 m1], k2 as [h2 m2]. cbn.
  intros [[H12 Hne12]|[Heq12 H12]] [[H21 Hne21]|[Heq21 H21]]; subst;
    try done.
  - by pose proof (string_leb_antisym _ _ H12 H21).
  - f_equal. by apply string_leb_antisym.
Qed.

Lemma drop_duplicates_from_keys seen df k :
  k ∈ pair_key <$> drop_duplicates_from seen df
  ↔ k ∈ pair_key <$> df ∧ k ∉ seen.
Proof.
  revert seen. induction df as [|r df IH]; intros seen.
  { cbn. rewrite elem_of_nil. tauto. }
  cbn [drop_duplicates_from]. rewrite (fmap_cons _ r df), elem_of_cons.
  destruct (decide (pair_key r ∈ seen)) as [Hin|Hnin].
  - rewrite IH. split; [tauto|]. intros [[->|?] ?]; tauto.
  - rewrite fmap_cons, elem_of_cons, IH, elem_of_union, elem_of_singleton.
    destruct (decide (k = pair_key r)) as [->|Hne]; tauto.
Qed.

Lemma drop_duplicates_from_NoDup seen df :
  NoDup (pair_key <$> drop_duplicates_from seen df).
Proof.
  revert seen. induction df as [|r df IH]; intros seen; [constructor|].
  cbn [drop_duplicates_from]. case_decide; [apply IH|].
  rewrite fmap_cons. constructor; [|apply IH].
  rewrite drop_duplicates_from_keys, elem_of_union, elem_of_singleton. tauto.
Qed.

Lemma drop_duplicates_from_subseteq seen df r :
  r ∈ drop_duplicates_from seen df → r ∈ df.
Proof.
  revert seen. induction df as [|r' df IH]; intros seen; [done|].
  cbn [drop_duplicates_from]. case_decide.
  - intros ?. right. eauto.
  - intros [->|?]%elem_of_cons; [left|right; eauto].
Qed.

(** X11: the mapping table returned after deduplication and sorting is
    in ascending order of (human symbol, mouse symbol), holds every symbol
    pair of the record list exactly once, and consists of records of the
    list. *)
Theorem mapping_table_sorted_and_unique (mapping_records : list mapping_record) :
  StronglySorted (holds record_leb) (finish_mapping mapping_records)
  ∧ NoDup (pair_key <$> finish_mapping mapping_records)
  ∧ (∀ k, k ∈ pair_key <$> finish_mapping mapping_records
          ↔ k ∈ pair_key <$> mapping_records)
  ∧ (∀ r, r ∈ finish_mapping mapping_records → r ∈ mapping_records).
Proof.
  unfold finish_mapping. destruct mapping_records as [|r0 records].
  { split_and!; [constructor|constructor|done|done]. }
  set (l := r0 :: records). unfold sort_values, drop_duplicates.
  split_and!.
  - apply sort_by_StronglySorted.
    + intros r1 r2. apply pair_leb_total.
    + intros r1 r2 r3. apply pair_leb_trans.
  - rewrite sort_by_Permutation. apply drop_duplicates_from_NoDup.
  - intros k. rewrite sort_by_Permutation, drop_duplicates_from_keys.
    split; [tauto|]. intros ?. split; [done|]. apply not_elem_of_empty.
  - intros r. rewrite sort_by_elem_of. apply drop_duplicates_from_subseteq.
Qed.
Lemma upper_ascii_idempotent c : upper_ascii (upper_ascii c) = upper_ascii c.
Proof. by destruct c as [[] [] [] [] [] [] [] []]. Qed.

Lemma upper_idempotent s : upper (upper s) = upper s.
Proof.
  induction s as [|c s IH]; [done|]. cbn [upper].
  by rewrite upper_ascii_idempotent, IH.
Qed.

Lemma upper_non_empty s : s ≠ "" → upper s ≠ "".
Proof. by destruct s. Qed.

Lemma elem_of_human_to_mouse_records ids syms r :
  r ∈ human_to_mouse_records ids syms ↔
  ∃ human_sym mouse_ids mouse_id mouse_sym,
    (human_sym, mouse_ids) ∈ ids ∧ mouse_id ∈ mouse_ids
    ∧ syms !! mouse_id = Some mouse_sym ∧ mouse_sym ≠ ""
    ∧ r = MappingRecord (upper human_sym) mouse_sym None (Some mouse_id)
            "human_to_mouse".
Proof.
  unfold human_to_mouse_records. rewrite list_elem_of_bind. split.
  - intros ([human_sym mouse_ids] & Hr & Hids).
    apply list_elem_of_bind in Hr as (mouse_id & Hr & Hid).
    destruct (syms !! mouse_id) as [mouse_sym|] eqn:Hsym;
      [|by apply elem_of_nil in Hr].
    case_decide; [by apply elem_of_nil in Hr|].
    apply list_elem_of_singleton in Hr as ->.
    by exists human_sym, mouse_ids, mouse_id, mouse_sym.
  - intros (human_sym & mouse_ids & mouse_id & mouse_sym
            & Hids & Hid & Hsym & Hne & ->).
    exists (human_sym, mouse_ids). split; [|done].
    apply list_elem_of_bind. exists mouse_id. split; [|done].
    rewrite Hsym, decide_False by done. left.
Qed.

Lemma elem_of_mouse_to_human_records ids syms r :
  r ∈ mouse_to_human_records ids syms ↔
  ∃ mouse_sym human_ids human_id human_sym,
    (mouse_sym, human_ids) ∈ ids ∧ human_id ∈ human_ids
    ∧ syms !! human_id = Some human_sym ∧ human_sym ≠ ""
    ∧ r = MappingRecord (upper human_sym) mouse_sym (Some human_id) None
            "mouse_to_human".
Proof.
  unfold mouse_to_human_records. rewrite list_elem_of_bind. split.
  - intros ([mouse_sym human_ids] & Hr & Hids).
    apply list_elem_of_bind in Hr as (human_id & Hr & Hid).
    destruct (syms !! human_id) as [human_sym|] eqn:Hsym;
      [|by apply elem_of_nil in Hr].
    case_decide; [by apply elem_of_nil in Hr|].
    apply list_elem_of_singleton in Hr as ->.
    by exists mouse_sym, human_ids, human_id, human_sym.
  - intros (mouse_sym & human_ids & human_id & human_sym
            & Hids & Hid & Hsym & Hne & ->).
    exists (mouse_sym, human_ids). split; [|done].
    apply list_elem_of_bind. exists human_id. split; [|done].
    rewrite Hsym, decide_False by done. left.
Qed.

Lemma finish_mapping_elem_of records r :
  r ∈ finish_mapping records → r ∈ records.
Proof.
  unfold finish_mapping. destruct records as [|r0 records]; [done|].
  unfold sort_values, drop_duplicates. rewrite sort_by_elem_of.
  apply drop_duplicates_from_subseteq.
Qed.

Lemma build_comprehensive_mapping_Some
    querymany getgenes int_set_order human_genes mouse_genes table :
  build_comprehensive_mapping querymany getgenes int_set_order
    human_genes mouse_genes = Some table →
  ∃ ids1 syms1 ids2 syms2,
    table = finish_mapping (human_to_mouse_records ids1 syms1
                            ++ mouse_to_human_records ids2 syms2).
Proof.
  unfold build_comprehensive_mapping.
  destruct (fetch_homologene_mappings _ _ human mouse) as [[ids1 set1]|];
    [|done].
  destruct (fetch_homologene_mappings _ _ mouse human) as [[ids2 set2]|];
    [|done].
  cbn. intros [= <-]. by eexists _, _, _, _.
Qed.

(** X12: every row of the mapping table has an upper-case human symbol
    and tells its origin consistently: a human-to-mouse row carries the
    mouse Entrez id only and a non-empty mouse symbol, a mouse-to-human
    row carries the human Entrez id only and a non-empty human symbol. *)
Theorem mapping_rows_are_well_formed
    (querymany : species → list string → option (list query_hit))
    (getgenes : species → list Z → option (list gene_hit))
    (int_set_order : list Z → list Z)
    (human_genes mouse_genes : list string) (table : list mapping_record) :
  build_comprehensive_mapping querymany getgenes int_set_order
    human_genes mouse_genes = Some table →
  Forall
    (λ r,
       upper (human_symbol r) = human_symbol r
       ∧ ((mapping_source r = "human_to_mouse"
           ∧ human_entrez r = None ∧ is_Some (mouse_entrez r)
           ∧ mouse_symbol r ≠ "")
          ∨ (mapping_source r = "mouse_to_human"
             ∧ is_Some (human_entrez r) ∧ mouse_entrez r = None
             ∧ human_symbol r ≠ "")))
    table.
Proof.
  intros (ids1 & syms1 & ids2 & syms2 & ->)%build_comprehensive_mapping_Some.
  apply Forall_forall. intros r Hr%finish_mapping_elem_of.
  apply elem_of_app in Hr as [Hr|Hr].
  - apply elem_of_human_to_mouse_records in Hr
      as (hs & mids & mid & ms & _ & _ & _ & Hne & ->). cbn.
    split; [apply upper_idempotent|]. left. by split_and!.
  - apply elem_of_mouse_to_human_records in Hr
      as (ms & hids & hid & hs & _ & _ & _ & Hne & ->). cbn.
    split; [apply upper_idempotent|]. right.
    split_and!; [done..|by apply upper_non_empty].
Qed.
Lemma mapping_rows_are_well_formed_witness :
  build_comprehensive_mapping mock_querymany mock_getgenes mock_int_set_order
    example_human_genes example_mouse_genes = Some example_mapping_table
  ∧ Forall
      (λ r,
         upper (human_symbol r) = human_symbol r
         ∧ ((mapping_source r = "human_to_mouse"
             ∧ human_entrez r = None ∧ is_Some (mouse_entrez r)
             ∧ mouse_symbol r ≠ "")
            ∨ (mapping_source r = "mouse_to_human"
               ∧ is_Some (human_entrez r) ∧ mouse_entrez r = None
               ∧ human_symbol r ≠ "")))
      example_mapping_table.
Proof.
  assert (Hrun : build_comprehensive_mapping mock_querymany mock_getgenes
                   mock_int_set_order example_human_genes example_mouse_genes
                 = Some example_mapping_table) by (vm_compute; reflexivity).
  split; [exact Hrun|].
  exact (mapping_rows_are_well_formed mock_querymany mock_getgenes
           mock_int_set_order example_human_genes example_mouse_genes
           example_mapping_table Hrun).
Defined.

Lemma drop_duplicate_pairs_NoDup seen (df : list (string * string)) :
  NoDup df → (∀ p, p ∈ df → p ∉ seen) → drop_duplicate_pairs seen df = df.
Proof.
  intros Hnd. revert seen. induction Hnd as [|p df Hp Hnd IH]; intros seen Hs;
    [done|].
  cbn [drop_duplicate_pairs]. rewrite decide_False by (apply Hs; left).
  f_equal. apply IH. intros q Hq.
  rewrite elem_of_union, elem_of_singleton. intros [->|Hseen]; [done|].
  by apply (Hs q); [right|].
Qed.

Lemma finish_mapping_sorted records :
  StronglySorted (holds record_leb) (finish_mapping records)
  ∧ NoDup (pair_key <$> finish_mapping records).
Proof.
  unfold finish_mapping. destruct records as [|r0 records].
  { split; constructor. }
  unfold sort_values, drop_duplicates. split.
  - apply sort_by_StronglySorted.
    + intros r1 r2. apply pair_leb_total.
    + intros r1 r2 r3. apply pair_leb_trans.
  - rewrite sort_by_Permutation. apply drop_duplicates_from_NoDup.
Qed.

Lemma homology_main_Some
    querymany getgenes int_set_order human_genes mouse_genes pairs :
  main querymany getgenes int_set_order human_genes mouse_genes = Some pairs →
  ∃ table,
    build_comprehensive_mapping querymany getgenes int_set_order
      human_genes mouse_genes = Some table
    ∧ table ≠ [] ∧ pairs = pair_key <$> table.
Proof.
  unfold main. intros Hmain.
  assert (build_comprehensive_mapping querymany getgenes int_set_order
            human_genes mouse_genes
          ≫= (λ mapping_df,
                match mapping_df with
                | [] => None
                | _ :: _ =>
                    Some (drop_duplicate_pairs ∅ (pair_key <$> mapping_df))
                end) = Some pairs) as Hbind
    by (by destruct human_genes, mouse_genes).
  clear Hmain.
  destruct (build_comprehensive_mapping _ _ _ _ _) as [table|] eqn:Hbuild;
    [|done].
  cbn [mbind option_bind] in Hbind. destruct table as [|r table]; [done|].
  assert (drop_duplicate_pairs ∅ (pair_key <$> r :: table) = pairs) as <-
    by (by injection Hbind).
  exists (r :: table). split_and!; [done..|].
  apply build_comprehensive_mapping_Some in Hbuild
    as (ids1 & syms1 & ids2 & syms2 & Htable).
  apply drop_duplicate_pairs_NoDup; [|by intros ? _ ?%elem_of_empty].
  rewrite Htable. apply finish_mapping_sorted.
Qed.

Lemma build_comprehensive_mapping_records
    querymany getgenes int_set_order human_genes mouse_genes table :
  build_comprehensive_mapping querymany getgenes int_set_order
    human_genes mouse_genes = Some table →
  table
  = finish_mapping
      (forward_records querymany getgenes int_set_order human_genes
       ++ backward_records querymany getgenes int_set_order mouse_genes).
Proof.
  unfold build_comprehensive_mapping, forward_records, backward_records.
  destruct (fetch_homologene_mappings _ _ human mouse) as [[ids1 set1]|];
    [|done].
  destruct (fetch_homologene_mappings _ _ mouse human) as [[ids2 set2]|];
    [|done].
  cbn. by intros [= <-].
Qed.

Lemma forward_records_source querymany getgenes int_set_order human_genes r :
  r ∈ forward_records querymany getgenes int_set_order human_genes →
  mapping_source r = "human_to_mouse".
Proof.
  unfold forward_records.
  destruct (fetch_homologene_mappings _ _ human mouse) as [[ids1 set1]|].
  - apply human_to_mouse_records_source.
  - by intros ?%elem_of_nil.
Qed.

Lemma drop_duplicates_from_NoDup_id seen (df : list mapping_record) :
  NoDup (pair_key <$> df) → (∀ r, r ∈ df → pair_key r ∉ seen) →
  drop_duplicates_from seen df = df.
Proof.
  revert seen. induction df as [|r df IH]; intros seen Hnd Hs; [done|].
  rewrite fmap_cons in Hnd. apply NoDup_cons in Hnd as [Hr Hnd].
  cbn [drop_duplicates_from]. rewrite decide_False by (apply Hs; left).
  f_equal. apply IH; [done|]. intros q Hq.
  rewrite elem_of_union, elem_of_singleton. intros [Heq|Hseen].
  - apply Hr. rewrite <-Heq. apply list_elem_of_fmap. by exists q.
  - by apply (Hs q); [right|].
Qed.

Lemma filter_fmap_pair_key (pair : string * string) (df : list mapping_record) :
  filter (λ p, p = pair) (pair_key <$> df)
  = pair_key <$> filter (λ r, pair_key r = pair) df.
Proof.
  induction df as [|r df IH]; [done|]. rewrite fmap_cons.
  destruct (decide (pair_key r = pair)) as [Heq|Hne].
  - rewrite !filter_cons_True by done. by rewrite fmap_cons, IH.
  - by rewrite !filter_cons_False by done.
Qed.

(** C6: when a run of the resolver finds the same symbol pair by the
    human-to-mouse and by the mouse-to-human lookup, the mapping table that
    [build_comprehensive_mapping] returns holds exactly one record for the
    pair: the first one appended to the record list, which carries the
    tag of the human-to-mouse direction.  Deduplicating the table again
    changes nothing, and the pair table that [main] writes lists the pair
    exactly once. *)
Theorem ortholog_pair_kept_once
    (querymany : species → list string → option (list query_hit))
    (getgenes : species → list Z → option (list gene_hit))
    (int_set_order : list Z → list Z)
    (human_genes mouse_genes : list string) (table : list mapping_record)
    (pair : string * string) :
  let forward :=
    forward_records querymany getgenes int_set_order human_genes in
  let backward :=
    backward_records querymany getgenes int_set_order mouse_genes in
  build_comprehensive_mapping querymany getgenes int_set_order
    human_genes mouse_genes = Some table →
  (∃ r1, r1 ∈ forward ∧ pair_key r1 = pair) →
  (∃ r2, r2 ∈ backward ∧ pair_key r2 = pair) →
  ∃ r,
    filter (λ r, pair_key r = pair) table = [r]
    ∧ head (filter (λ r, pair_key r = pair) (forward ++ backward)) = Some r
    ∧ mapping_source r = "human_to_mouse"
    ∧ drop_duplicates table = table
    ∧ ∃ pairs,
        main querymany getgenes int_set_order human_genes mouse_genes
        = Some pairs
        ∧ filter (λ p, p = pair) pairs = [pair].
Proof.
  intros forward backward Hbuild Hforward _.
  pose proof (build_comprehensive_mapping_records _ _ _ _ _ _ Hbuild)
    as Htable. fold forward backward in Htable.
  destruct (first_record_kept forward backward pair Hforward)
    as (r & Hin & Hone & Hhead).
  rewrite <-Htable in Hone.
  destruct (finish_mapping_sorted (forward ++ backward)) as [_ Hnd].
  rewrite <-Htable in Hnd.
  exists r. split_and!; [done|done| | |].
  - by apply (forward_records_source querymany getgenes int_set_order
                human_genes).
  - apply drop_duplicates_from_NoDup_id; [done|].
    intros ? _. apply not_elem_of_empty.
  - exists (pair_key <$> table).
    assert (Hr : r ∈ table).
    { assert (r ∈ filter (λ r, pair_key r = pair) table) as Hf
        by (rewrite Hone; left).
      by apply list_elem_of_filter in Hf as [_ ?]. }
    assert (Hkey : pair_key r = pair).
    { assert (r ∈ filter (λ r, pair_key r = pair) table) as Hf
        by (rewrite Hone; left).
      by apply list_elem_of_filter in Hf as [? _]. }
    split.
    + unfold main.
      assert (human_genes ≠ []) as Hne.
      { intros ->. by cbn in Hbuild. }
      destruct human_genes as [|g human_genes']; [done|].
      rewrite Hbuild. cbn [mbind option_bind].
      destruct table as [|r0 table']; [by apply elem_of_nil in Hr|].
      f_equal. apply drop_duplicate_pairs_NoDup; [done|].
      intros ? _. apply not_elem_of_empty.
    + by rewrite filter_fmap_pair_key, Hone, <-Hkey.
Qed.

Lemma ortholog_pair_kept_once_witness :
  build_comprehensive_mapping mock_querymany mock_getgenes mock_int_set_order
    example_human_genes example_mouse_genes = Some example_mapping_table
  ∧ (∃ r1, r1 ∈ forward_records mock_querymany mock_getgenes
                  mock_int_set_order example_human_genes
           ∧ pair_key r1 = ("TP53", "Trp53"))
  ∧ (∃ r2, r2 ∈ backward_records mock_querymany mock_getgenes
                  mock_int_set_order example_mouse_genes
           ∧ pair_key r2 = ("TP53", "Trp53"))
  ∧ ∃ r,
      filter (λ r, pair_key r = ("TP53", "Trp53")) example_mapping_table = [r]
      ∧ mapping_source r = "human_to_mouse".
Proof.
  assert (Hrun : build_comprehensive_mapping mock_querymany mock_getgenes
                   mock_int_set_order example_human_genes example_mouse_genes
                 = Some example_mapping_table) by (vm_compute; reflexivity).
  assert (H1 : ∃ r1, r1 ∈ forward_records mock_querymany mock_getgenes
                          mock_int_set_order example_human_genes
                     ∧ pair_key r1 = ("TP53", "Trp53")).
  { exists (MappingRecord "TP53" "Trp53" None (Some 22059%Z) "human_to_mouse").
    split; [|reflexivity]. vm_compute.
    repeat first [apply list_elem_of_here | apply list_elem_of_further]. }
  assert (H2 : ∃ r2, r2 ∈ backward_records mock_querymany mock_getgenes
                          mock_int_set_order example_mouse_genes
                     ∧ pair_key r2 = ("TP53", "Trp53")).
  { exists (MappingRecord "TP53" "Trp53" (Some 7157%Z) None "mouse_to_human").
    split; [|reflexivity]. vm_compute.
    repeat first [apply list_elem_of_here | apply list_elem_of_further]. }
  split; [exact Hrun|]. split; [exact H1|]. split; [exact H2|].
  destruct (ortholog_pair_kept_once mock_querymany mock_getgenes
              mock_int_set_order example_human_genes example_mouse_genes
              example_mapping_table ("TP53", "Trp53") Hrun H1 H2)
    as (r & Hone & _ & Hsrc & _).
  exists r. split; [exact Hone|exact Hsrc].
Defined.

(** X13: the pair table that step 2 writes is not empty, lists every
    pair of the mapping table once, keeps its ascending order of (human
    symbol, mouse symbol), and has upper-case human symbols only; the
    second deduplication in [main] removes nothing. *)
Theorem pair_table_sorted_and_unique
    (querymany : species → list string → option (list query_hit))
    (getgenes : species → list Z → option (list gene_hit))
    (int_set_order : list Z → list Z)
    (human_genes mouse_genes : list string) (pairs : list (string * string)) :
  main querymany getgenes int_set_order human_genes mouse_genes = Some pairs →
  pairs ≠ []
  ∧ NoDup pairs
  ∧ StronglySorted (holds pair_leb) pairs
  ∧ Forall (λ p, upper p.1 = p.1) pairs
  ∧ ∃ table,
      build_comprehensive_mapping querymany getgenes int_set_order
        human_genes mouse_genes = Some table
      ∧ pairs = pair_key <$> table.
Proof.
  intros (table & Hbuild & Hne & ->)%homology_main_Some.
  pose proof Hbuild as (ids1 & syms1 & ids2 & syms2 & Htable)
    %build_comprehensive_mapping_Some.
  destruct (finish_mapping_sorted
              (human_to_mouse_records ids1 syms1
               ++ mouse_to_human_records ids2 syms2)) as [Hsorted Hnd].
  rewrite <-Htable in Hsorted, Hnd.
  split_and!.
  - by destruct table.
  - done.
  - by apply (StronglySorted_fmap pair_key (holds record_leb)).
  - apply Forall_fmap, Forall_forall. intros r Hr. cbn.
    rewrite Htable in Hr. apply finish_mapping_elem_of in Hr.
    apply elem_of_app in Hr as [Hr|Hr].
    + apply elem_of_human_to_mouse_records in Hr
        as (? & ? & ? & ? & _ & _ & _ & _ & ->). apply upper_idempotent.
    + apply elem_of_mouse_to_human_records in Hr
        as (? & ? & ? & ? & _ & _ & _ & _ & ->). apply upper_idempotent.
  - by exists table.
Qed.

Lemma pair_table_sorted_and_unique_witness :
  main mock_querymany mock_getgenes mock_int_set_order
    example_human_genes example_mouse_genes = Some example_pairs
  ∧ example_pairs ≠ []
  ∧ NoDup example_pairs
  ∧ StronglySorted (holds pair_leb) example_pairs
  ∧ Forall (λ p, upper p.1 = p.1) example_pairs
  ∧ ∃ table,
      build_comprehensive_mapping mock_querymany mock_getgenes
        mock_int_set_order example_human_genes example_mouse_genes
      = Some table
      ∧ example_pairs = pair_key <$> table.
Proof.
  assert (Hrun : main mock_querymany mock_getgenes mock_int_set_order
                   example_human_genes example_mouse_genes
                 = Some example_pairs) by (vm_compute; reflexivity).
  split; [exact Hrun|].
  exact (pair_table_sorted_and_unique mock_querymany mock_getgenes
           mock_int_set_order example_human_genes example_mouse_genes
           example_pairs Hrun).
Defined.




Lemma last_human_is_greatest (df : list (string * string)) m h h' :
  StronglySorted (holds pair_leb) df →
  last (filter (λ p, p.2 = m) df).*1 = Some h' →
  (h, m) ∈ df → String.leb h h' = true.
Proof.
  induction 1 as [|p df Hdf IH Hp]; [by intros _ ?%elem_of_nil|].
  intros Hlast Hin.
  assert (∀ a, (a, m) ∈ df → a ∈ (filter (λ p, p.2 = m) df).*1) as Hfil.
  { intros a Ha. apply list_elem_of_fmap. exists (a, m). split; [done|].
    by apply list_elem_of_filter. }
  destruct ((filter (λ p, p.2 = m) df).*1) as [|a0 l0] eqn:Hl.
  - apply elem_of_cons in Hin as [<-|Hin].
    + rewrite filter_cons_True in Hlast by done.
      rewrite fmap_cons, Hl in Hlast. cbn in Hlast.
      injection Hlast as <-. apply string_leb_refl.
    + apply Hfil in Hin. by apply elem_of_nil in Hin.
  - assert (last (a0 :: l0) = Some h') as Hlast'.
    { destruct (decide (p.2 = m)) as [Hpm|Hpm].
      - rewrite filter_cons_True in Hlast by done.
        by rewrite fmap_cons, Hl, last_cons_cons in Hlast.
      - rewrite filter_cons_False in Hlast by done. by rewrite Hl in Hlast. }
    apply elem_of_cons in Hin as [<-|Hin]; [|by apply IH].
    assert ((h', m) ∈ df) as Hh'.
    { assert (h' ∈ a0 :: l0) as Hel.
      { apply last_Some in Hlast' as [l' ->]. apply elem_of_app. right. left. }
      rewrite <-Hl in Hel.
      apply list_elem_of_fmap in Hel as ([a b] & -> & [Hb ?]%list_elem_of_filter).
      cbn in Hb. by subst b. }
    rewrite Forall_forall in Hp. specialize (Hp _ Hh').
    apply pair_leb_spec in Hp as [[? _]|[Heq _]]; [done|].
    cbn in Heq. subst h'. apply string_leb_refl.
Qed.

(** X15: on a pair table in ascending order of (human symbol, mouse
    symbol), as step 2 writes it, the mouse-to-human lookup answers a
    mouse symbol with the greatest human symbol paired with it. *)
Theorem reverse_index_keeps_greatest_human
    (df : list (string * string)) (h m : string) :
  StronglySorted (holds pair_leb) df →
  (h, m) ∈ df →
  ∃ h', Consolidation.m2h (Consolidation.load_orthology_mapping df) !! m
        = Some h'
        ∧ (h', m) ∈ df ∧ String.leb h h' = true.
Proof.
  intros Hsorted Hin. rewrite m2h_load.
  destruct (last (filter (λ p, p.2 = m) df).*1) as [h'|] eqn:Hlast.
  - exists h'. split_and!; [done| |by eapply last_human_is_greatest].
    apply last_Some in Hlast as [l' Hl'].
    assert (h' ∈ (filter (λ p, p.2 = m) df).*1) as Hel
      by (rewrite Hl'; apply elem_of_app; right; left).
    apply list_elem_of_fmap in Hel as ([a b] & -> & [Hb ?]%list_elem_of_filter).
    cbn in Hb. by subst b.
  - apply last_None, fmap_nil_inv in Hlast.
    assert ((h, m) ∈ filter (λ p, p.2 = m) df) as Hf
      by (by apply list_elem_of_filter).
    rewrite Hlast in Hf. by apply elem_of_nil in Hf.
Qed.

Lemma reverse_index_keeps_greatest_human_witness :
  StronglySorted (holds pair_leb)
    [("BAX", "Bax"); ("BAXL", "Bax"); ("TP53", "Trp53")]
  ∧ ("BAX", "Bax") ∈ [("BAX", "Bax"); ("BAXL", "Bax"); ("TP53", "Trp53")]
  ∧ ∃ h', Consolidation.m2h
            (Consolidation.load_orthology_mapping
               [("BAX", "Bax"); ("BAXL", "Bax"); ("TP53", "Trp53")])
            !! "Bax" = Some h'
          ∧ (h', "Bax") ∈ [("BAX", "Bax"); ("BAXL", "Bax"); ("TP53", "Trp53")]
          ∧ String.leb "BAX" h' = true.
Proof.
  assert (Hs : StronglySorted (holds pair_leb)
                 [("BAX", "Bax"); ("BAXL", "Bax"); ("TP53", "Trp53")])
    by (repeat constructor).
  assert (Hin : ("BAX", "Bax")
                ∈ [("BAX", "Bax"); ("BAXL", "Bax"); ("TP53", "Trp53")])
    by left.
  split; [exact Hs|]. split; [exact Hin|].
  exact (reverse_index_keeps_greatest_human _ "BAX" "Bax" Hs Hin).
Defined.

Lemma fetch_outage querymany genes source_species target_species :
  (∀ sp batch, querymany sp batch = None) →
  fetch_homologene_mappings querymany genes source_species target_species
  = match genes with [] => None | _ :: _ => Some ([], []) end.
Proof.
  intros Hout. unfold fetch_homologene_mappings.
  assert (∀ l acc,
            fold_left
              (λ acc batch,
                 match querymany source_species batch with
                 | Some out => fold_left (record_hit target_species) out acc
                 | None => acc
                 end) l acc = acc) as ->; [|done].
  induction l as [|b l IH]; intros acc; [done|].
  cbn [fold_left]. by rewrite Hout, IH.
Qed.

Lemma entrez_outage getgenes int_set_order ids sp :
  (∀ sp batch, getgenes sp batch = None) →
  entrez_ids_to_symbols getgenes int_set_order ids sp = ∅.
Proof.
  intros Hout. unfold entrez_ids_to_symbols. destruct ids; [done|].
  generalize (batches 500 (int_set_order (z :: ids))).
  intros l. generalize (∅ : gmap Z string).
  induction l as [|b l IH]; intros acc; [done|].
  cbn [fold_left]. by rewrite Hout, IH.
Qed.

Lemma human_to_mouse_records_nil syms : human_to_mouse_records [] syms = [].
Proof. done. Qed.
Lemma mouse_to_human_records_nil syms : mouse_to_human_records [] syms = [].
Proof. done. Qed.

Lemma human_to_mouse_records_empty ids : human_to_mouse_records ids ∅ = [].
Proof.
  apply elem_of_nil_inv. intros r Hr.
  apply elem_of_human_to_mouse_records in Hr
    as (? & ? & ? & ? & _ & _ & Hsym & _). by rewrite lookup_empty in Hsym.
Qed.
Lemma mouse_to_human_records_empty ids : mouse_to_human_records ids ∅ = [].
Proof.
  apply elem_of_nil_inv. intros r Hr.
  apply elem_of_mouse_to_human_records in Hr
    as (? & ? & ? & ? & _ & _ & Hsym & _). by rewrite lookup_empty in Hsym.
Qed.

Lemma main_no_records querymany getgenes int_set_order human_genes mouse_genes :
  (∀ table,
     build_comprehensive_mapping querymany getgenes int_set_order
       human_genes mouse_genes = Some table → table = []) →
  main querymany getgenes int_set_order human_genes mouse_genes = None.
Proof.
  intros Hbuild. unfold main.
  destruct (build_comprehensive_mapping _ _ _ _ _) as [table|].
  - rewrite (Hbuild table eq_refl). by destruct human_genes, mouse_genes.
  - by destruct human_genes, mouse_genes.
Qed.

(** X16: when the gene-information service cannot be reached, for the
    ortholog queries or for the conversion of ids to symbols, every batch
    is skipped and step 2 stops with an error instead of writing an empty
    pair table. *)
Theorem resolver_stops_without_service
    (querymany : species → list string → option (list query_hit))
    (getgenes : species → list Z → option (list gene_hit))
    (int_set_order : list Z → list Z)
    (human_genes mouse_genes : list string) :
  (∀ sp batch, querymany sp batch = None)
  ∨ (∀ sp batch, getgenes sp batch = None) →
  main querymany getgenes int_set_order human_genes mouse_genes = None.
Proof.
  intros Hout. apply main_no_records. intros table.
  unfold build_comprehensive_mapping. destruct Hout as [Hq|Hg].
  - rewrite !fetch_outage by done.
    destruct (sort_by String.leb human_genes); [done|].
    destruct (sort_by String.leb mouse_genes); [done|].
    cbn [mbind option_bind].
    rewrite human_to_mouse_records_nil, mouse_to_human_records_nil.
    by intros [= <-].
  - destruct (fetch_homologene_mappings _ _ human mouse) as [[ids1 set1]|];
      [|done].
    destruct (fetch_homologene_mappings _ _ mouse human) as [[ids2 set2]|];
      [|done].
    cbn [mbind option_bind]. rewrite !entrez_outage by done.
    rewrite human_to_mouse_records_empty, mouse_to_human_records_empty.
    by intros [= <-].
Qed.

Lemma resolver_stops_without_service_witness :
  ((∀ sp batch, unreachable_querymany sp batch = None)
   ∨ (∀ sp batch, mock_getgenes sp batch = None))
  ∧ main unreachable_querymany mock_getgenes mock_int_set_order
      example_human_genes example_mouse_genes = None.
Proof.
  assert (Hout : (∀ sp batch, unreachable_querymany sp batch = None)
                 ∨ (∀ sp batch, mock_getgenes sp batch = None))
    by (left; reflexivity).
  split; [exact Hout|].
  exact (resolver_stops_without_service unreachable_querymany mock_getgenes
           mock_int_set_order example_human_genes example_mouse_genes Hout).
Defined.
End mapping_table.

(** ** Where the Ensembl identifiers come from *)

Section annotation_provenance.
Import Annotation.

Variable querymany : string → list string → option (list ensembl_hit).

Lemma fetch_ensembl_ids_provenance gene_symbols species sym id :
  fetch_ensembl_ids_batched querymany gene_symbols species !! sym = Some id →
  ∃ batch out hit,
    querymany (if decide (species = "human") then "human" else "mouse") batch
    = Some out
    ∧ hit ∈ out ∧ hit_query hit = sym ∧ ensembl_gene hit = Some id.
Proof.
  unfold fetch_ensembl_ids_batched.
  destruct (filter _ gene_symbols) as [|s0 valid]; [by rewrite lookup_empty|].
  generalize (batches 200 (s0 :: valid)). intros l. revert sym id.
  apply (fold_left_invariant
           (λ m : gmap string string, ∀ sym id, m !! sym = Some id → _));
    [intros ??; by rewrite lookup_empty|].
  intros m batch Hm.
  destruct (querymany _ batch) as [out|] eqn:Hq; [|done].
  assert (∀ out', out' ⊆ out →
            ∀ sym id, fold_left record_ensembl_hit out' m !! sym = Some id →
            ∃ batch out hit,
              querymany (if decide (species = "human") then "human"
                         else "mouse") batch = Some out
              ∧ hit ∈ out ∧ hit_query hit = sym ∧ ensembl_gene hit = Some id)
    as Hout; [|by apply (Hout out)].
  intros out'. revert m Hm. induction out' as [|hit out' IH]; intros m Hm Hsub.
  { done. }
  cbn [fold_left]. apply IH.
  - intros sym id. unfold record_ensembl_hit.
    destruct (ensembl_gene hit) as [gene|] eqn:Hgene; [|by apply Hm].
    destruct (decide (hit_query hit = sym)) as [<-|Hne].
    + rewrite lookup_insert_eq. intros [= <-].
      exists batch, out, hit. split_and!; [done| |done..].
      apply Hsub. left.
    + rewrite lookup_insert_ne by done. apply Hm.
  - intros x Hx. apply Hsub. by right.
Qed.

(** X17: an Ensembl identifier in the final table is one that the
    identifier service returned, for the species of the column, in a hit
    whose query is the symbol of the row; the annotator never fills in an
    identifier of its own. *)
Theorem ensembl_ids_come_from_service (df : list Consolidation.gene_row) :
  Forall
    (λ r,
       (∀ id, human_ensembl_id r = Some id →
              ∃ batch out hit,
                querymany "human" batch = Some out ∧ hit ∈ out
                ∧ hit_query hit = human_symbol r
                ∧ ensembl_gene hit = Some id)
       ∧ (∀ id, mouse_ensembl_id r = Some id →
                ∃ batch out hit,
                  querymany "mouse" batch = Some out ∧ hit ∈ out
                  ∧ hit_query hit = mouse_symbol r
                  ∧ ensembl_gene hit = Some id))
    (main querymany df).
Proof.
  unfold main. apply Forall_fmap, Forall_forall. intros r _. cbn.
  unfold map_symbol. split; intros id; case_decide; try done;
    intros Hid%fetch_ensembl_ids_provenance; exact Hid.
Qed.

Lemma fetch_ensembl_ids_outage gene_symbols species :
  (∀ sp batch, querymany sp batch = None) →
  fetch_ensembl_ids_batched querymany gene_symbols species = ∅.
Proof.
  intros Hout. unfold fetch_ensembl_ids_batched.
  destruct (filter _ gene_symbols) as [|s0 valid]; [done|].
  generalize (batches 200 (s0 :: valid)). intros l.
  generalize (∅ : gmap string string).
  induction l as [|b l IH]; intros acc; [done|].
  cbn [fold_left]. by rewrite Hout, IH.
Qed.

(** X18: when the identifier service cannot be reached the annotator
    still delivers the final table, with both Ensembl columns empty. *)
Theorem annotation_without_service (df : list Consolidation.gene_row) :
  (∀ sp batch, querymany sp batch = None) →
  main querymany df
  = (λ r, AnnotatedRow (Consolidation.human_symbol r) None
            (Consolidation.mouse_symbol r) None (Consolidation.category r)
            (Consolidation.sources r) (Consolidation.evidence_score r))
    <$> df.
Proof.
  intros Hout. unfold main. rewrite !fetch_ensembl_ids_outage by done.
  apply list_fmap_ext. intros i r _. unfold map_symbol.
  by repeat case_decide.
Qed.
End annotation_provenance.

Lemma annotation_without_service_witness :
  (∀ sp batch, unreachable_ensembl sp batch = None)
  ∧ Annotation.main unreachable_ensembl example_table
    = (λ r, Annotation.AnnotatedRow (Consolidation.human_symbol r) None
              (Consolidation.mouse_symbol r) None (Consolidation.category r)
              (Consolidation.sources r) (Consolidation.evidence_score r))
      <$> example_table.
Proof.
  assert (Hout : ∀ sp batch, unreachable_ensembl sp batch = None)
    by reflexivity.
  split; [exact Hout|].
  exact (annotation_without_service unreachable_ensembl example_table Hout).
Defined.

(** ** The per-source statistics and files in general *)

Section breakdown_general.
Import Breakdown.

(** X19: for any table, the four per-category counts of
    [add_category_stats] add up to the number of rows whose category is one
    of the four, and [Total] is the number of all rows: a row with another
    category is counted in the total only. *)
Theorem category_counts_skip_other_categories
    (df : list Annotation.annotated_row) :
  sum_list (stat (add_category_stats df) <$> CATEGORY_ORDER)
  = length (filter (λ r, Annotation.category r ∈ CATEGORY_ORDER) df)
  ∧ stat (add_category_stats df) "Total" = length df
  ∧ sum_list (stat (add_category_stats df) <$> CATEGORY_ORDER) ≤ length df.
Proof.
  assert (sum_list (stat (add_category_stats df) <$> CATEGORY_ORDER)
          = length (filter (λ r, Annotation.category r ∈ CATEGORY_ORDER) df))
    as Hsum.
  { transitivity
      (sum_list ((λ cat, length (filter (λ r, Annotation.category r = cat) df))
                   <$> CATEGORY_ORDER)).
    { apply (f_equal sum_list), list_fmap_ext. intros i cat Hcat.
      apply stat_category. by eapply list_elem_of_lookup_2. }
    induction df as [|r df IH]; [done|].
    cbn [CATEGORY_ORDER fmap list_fmap sum_list sum_list_with] in *.
    rewrite !length_filter_cons. unfold id in *.
    destruct (decide (Annotation.category r ∈ CATEGORY_ORDER)) as [Hr|Hr].
    - unfold CATEGORY_ORDER in Hr.
      repeat (apply elem_of_cons in Hr as [Hr|Hr]);
        [..|by apply elem_of_nil in Hr];
        rewrite Hr; repeat case_decide; try done; lia.
    - repeat case_decide;
        try (destruct Hr; unfold CATEGORY_ORDER;
             match goal with H : Annotation.category r = _ |- _ =>
               rewrite H end;
             by repeat first [apply list_elem_of_here
                             | apply list_elem_of_further]).
      lia. }
  split_and!; [done|reflexivity|].
  rewrite Hsum. apply length_filter.
Qed.

Lemma index_of_Some s l i : index_of s l = Some i → l !! i = Some s.
Proof.
  revert i. induction l as [|s' l IH]; intros i; [done|].
  cbn [index_of]. case_decide as Hs; [by intros [= <-]; subst|].
  destruct (index_of s l) as [j|]; [|done].
  intros [= <-]. by apply IH.
Qed.

Lemma index_of_None s l : index_of s l = None ↔ s ∉ l.
Proof.
  induction l as [|s' l IH]; [by split; [intros _ ?%elem_of_nil|]|].
  cbn [index_of]. rewrite not_elem_of_cons. case_decide as Hs.
  - split; [done|by intros [? _]].
  - destruct (index_of s l) as [j|] eqn:Hj.
    + split; [done|]. intros [_ Hnin]. by apply IH in Hnin.
    + split; [|done]. intros _. split; [done|]. by apply IH.
Qed.

Lemma category_label_spec r :
  category_label (to_categorical r)
  = if decide (Annotation.category r ∈ CATEGORY_ORDER)
    then Annotation.category r else "".
Proof.
  unfold category_label, to_categorical. cbn [category_code].
  destruct (index_of _ CATEGORY_ORDER) as [i|] eqn:Hi.
  - pose proof (index_of_Some _ _ _ Hi) as Hl. rewrite Hl. cbn.
    rewrite decide_True; [done|]. by eapply list_elem_of_lookup_2.
  - apply index_of_None in Hi. by rewrite decide_False.
Qed.

Lemma categorical_leb_total r1 r2 :
  categorical_leb r1 r2 = true ∨ categorical_leb r2 r1 = true.
Proof.
  unfold categorical_leb.
  destruct (category_code r1) as [c1|], (category_code r2) as [c2|];
    [|auto..|apply string_leb_total].
  destruct (lt_eq_lt_dec c1 c2) as [[?| ->]|?].
  - left. by rewrite bool_decide_true.
  - destruct (string_leb_total (Annotation.human_symbol (fields r1))
                (Annotation.human_symbol (fields r2))) as [H|H];
      [left|right]; rewrite H, (bool_decide_true (c2 = c2)) by done;
      apply orb_true_r.
  - right. by rewrite bool_decide_true.
Qed.

Lemma categorical_leb_trans r1 r2 r3 :
  categorical_leb r1 r2 = true → categorical_leb r2 r3 = true →
  categorical_leb r1 r3 = true.
Proof.
  unfold categorical_leb.
  destruct (category_code r1) as [c1|], (category_code r2) as [c2|],
    (category_code r3) as [c3|]; try done; [|apply string_leb_trans].
  rewrite !orb_true_iff, !andb_true_iff, !bool_decide_eq_true.
  intros [?|[? H12]] [?|[? H23]]; [left; lia..|].
  right. split; [lia|]. by eapply string_leb_trans.
Qed.

(** X20: the file saved for a source label holds the rows given to
    [save_source_breakdown], ordered by the position of their category in
    the fixed category order and then by human symbol, rows of another
    category last; the category written is the row's own when it is one of
    the four and an empty cell otherwise. *)
Theorem breakdown_file_sorted (df : list Annotation.annotated_row) :
  StronglySorted (holds categorical_leb) (sort_by_category df)
  ∧ fields <$> sort_by_category df ≡ₚ df
  ∧ Forall
      (λ cr,
         category_code cr
         = index_of (Annotation.category (fields cr)) CATEGORY_ORDER
         ∧ category_label cr
           = if decide (Annotation.category (fields cr) ∈ CATEGORY_ORDER)
             then Annotation.category (fields cr) else "")
      (sort_by_category df).
Proof.
  split_and!.
  - apply sort_by_StronglySorted;
      [apply categorical_leb_total|apply categorical_leb_trans].
  - apply fields_sort_by_category.
  - apply Forall_forall. intros cr Hcr.
    unfold sort_by_category in Hcr. rewrite sort_by_elem_of in Hcr.
    apply list_elem_of_fmap in Hcr as (r & -> & _).
    split; [done|]. apply category_label_spec.
Qed.

(** The odd table, run: the row with category [Unknown] is in the KEGG
    file, last and with an empty category cell, and in no count. *)
Example breakdown_of_odd_table :
  (category_label <$> sort_by_category (filter_by_source odd_final_table "KEGG"))
  = ["Pro-apoptotic"; "Anti-apoptotic"; ""]
  ∧ add_category_stats (filter_by_source odd_final_table "KEGG")
    = [("Pro-apoptotic", 1); ("Anti-apoptotic", 1); ("Ambiguous", 0);
       ("Unspecified", 0); ("Total", 3)].
Proof. split; vm_compute; reflexivity. Qed.
End breakdown_general.

(** ** Human symbols that are not upper case *)

Section lower_case_symbols.
Import Consolidation.

Lemma sorted_set_empty : sorted_set ∅ = [].
Proof. unfold sorted_set. by rewrite elements_empty. Qed.

(** X21: the pair table of step 2 has upper-case human symbols only, so a
    gene that a source lists under a symbol with a lower-case letter finds
    no entry in either lookup: its row in the consolidated table has an
    empty mouse symbol cell, whatever orthologs the pair table holds for
    the upper-case spelling. *)
Theorem mixed_case_symbol_gets_no_ortholog
    (pairs : list (string * string)) (sources : string → list string)
    (df : list gene_row) :
  Forall (λ p, upper p.1 = p.1) pairs →
  consolidate_genes (load_orthology_mapping pairs) sources = Some df →
  Forall (λ r, upper (human_symbol r) ≠ human_symbol r → mouse_symbol r = "")
    df.
Proof.
  intros Hupper Hdf. rewrite Forall_forall in Hupper. apply Forall_forall.
  intros r (h & ev & Hget & ->)%(elem_of_consolidate_genes _ _ _ _ Hdf).
  cbn [consolidate_row human_symbol mouse_symbol]. intros Hh.
  assert (mouse_symbols ev = ∅) as ->; [|by rewrite sorted_set_empty].
  apply elem_of_equiv_empty_L. intros m Hm.
  pose proof (aggregate_mouse (load_orthology_mapping pairs) sources h m)
    as Hiff.
  rewrite Hget in Hiff. cbn [default] in Hiff. apply Hiff in Hm.
  destruct Hm as [[_ (mice & Hmice & _)]|(name & _ & _ & Hm2h)].
  - rewrite h2m_load in Hmice.
    destruct ((filter (λ p, p.1 = h) pairs).*2) as [|m0 l] eqn:Hf; [done|].
    assert (m0 ∈ (filter (λ p, p.1 = h) pairs).*2) as Hin
      by (rewrite Hf; left).
    apply list_elem_of_fmap in Hin as ([a b] & _ & [Ha Hin]%list_elem_of_filter).
    cbn in Ha. subst a. exact (Hh (Hupper _ Hin)).
  - rewrite m2h_load in Hm2h. apply last_Some in Hm2h as [l' Hl'].
    assert (h ∈ (filter (λ p, p.2 = m) pairs).*1) as Hin
      by (rewrite Hl'; apply elem_of_app; right; left).
    apply list_elem_of_fmap in Hin as ([a b] & -> & [_ Hin]%list_elem_of_filter).
    exact (Hh (Hupper _ Hin)).
Qed.

Lemma mixed_case_symbol_gets_no_ortholog_witness :
  Forall (λ p, upper p.1 = p.1) lower_case_pairs
  ∧ consolidate_genes (load_orthology_mapping lower_case_pairs)
      lower_case_sources = Some lower_case_table
  ∧ Forall (λ r, upper (human_symbol r) ≠ human_symbol r → mouse_symbol r = "")
      lower_case_table.
Proof.
  assert (Hupper : Forall (λ p, upper p.1 = p.1) lower_case_pairs)
    by (repeat constructor).
  assert (Hrun : consolidate_genes (load_orthology_mapping lower_case_pairs)
                   lower_case_sources = Some lower_case_table)
    by (vm_compute; reflexivity).
  split; [exact Hupper|]. split; [exact Hrun|].
  exact (mixed_case_symbol_gets_no_ortholog lower_case_pairs
           lower_case_sources lower_case_table Hupper Hrun).
Defined.
End lower_case_symbols.

(** ** The source files in terms of the gene sets *)

Section breakdown_contents.
Import Consolidation.

Lemma prefix_before_comma pat s1 s2 :
  comma_free pat = true →
  String.prefix pat (s1 +:+ String "," s2) = String.prefix pat s1.
Proof.
  revert s1. induction pat as [|c pat IH]; intros s1 Hfree; [by destruct s1|].
  cbn [comma_free] in Hfree. apply andb_true_iff in Hfree as [Hc Hfree].
  destruct s1 as [|d s1].
  - change ("" +:+ String "," s2) with (String "," s2). cbn [String.prefix].
    destruct (ascii_dec c ",") as [->|?]; [by vm_compute in Hc|done].
  - change (String d s1 +:+ String "," s2)
      with (String d (s1 +:+ String "," s2)).
    cbn [String.prefix]. destruct (ascii_dec c d); [by apply IH|done].
Qed.

Lemma str_contains_comma pat s1 s2 :
  comma_free pat = true →
  str_contains pat (s1 +:+ String "," s2)
  = str_contains pat s1 || str_contains pat s2.
Proof.
  intros Hfree. induction s1 as [|d s1 IH].
  - change ("" +:+ String "," s2) with (String "," s2).
    cbn [str_contains].
    rewrite <-(prefix_before_comma pat "" s2) by done.
    change ("" +:+ String "," s2) with (String "," s2).
    by rewrite orb_false_r.
  - change (String d s1 +:+ String "," s2)
      with (String d (s1 +:+ String "," s2)).
    cbn [str_contains]. rewrite IH.
    change (String d (s1 +:+ String "," s2))
      with (String d s1 +:+ String "," s2).
    rewrite prefix_before_comma by done. by rewrite !orb_assoc.
Qed.

Lemma str_contains_join pat l :
  comma_free pat = true → l ≠ [] →
  str_contains pat (join "," l) = existsb (str_contains pat) l.
Proof.
  intros Hfree. induction l as [|s l IH]; [done|]. intros _.
  destruct l as [|s' l].
  - cbn. by rewrite orb_false_r.
  - change (join "," (s :: s' :: l))
      with (s +:+ String "," (join "," (s' :: l))).
    rewrite str_contains_comma, IH by done. done.
Qed.

Lemma sources_cell_contains pat (X : gset string) :
  comma_free pat = true → X ≠ ∅ →
  str_contains pat (join "," (sorted_set X)) = true
  ↔ ∃ s, s ∈ X ∧ str_contains pat s = true.
Proof.
  intros Hfree HX. rewrite str_contains_join; [|done|].
  - rewrite existsb_exists. unfold sorted_set.
    split; intros (s & Hs & Hc); exists s; (split; [|done]).
    + apply elem_of_elements. rewrite <-(sort_by_elem_of String.leb).
      by apply list_elem_of_In.
    + apply list_elem_of_In, sort_by_elem_of. by apply elem_of_elements.
  - unfold sorted_set. intros Hnil.
    assert (elements X = []) as Hel.
    { apply Permutation_nil_r. by rewrite <-(sort_by_Permutation String.leb), Hnil. }
    apply HX. by apply leibniz_equiv, elements_empty_iff.
Qed.

Lemma label_contains s :
  s ∈ source_labels →
  (str_contains "KEGG" s = true ↔ s = "KEGG")
  ∧ (str_contains "Reactome" s = true ↔ s = "Reactome")
  ∧ (str_contains "Hallmark" s = true ↔ s = "Hallmark")
  ∧ (str_contains "GO_" s = true
     ↔ s ∈ ["GO_Pro_Human"; "GO_Pro_Mouse"; "GO_Anti_Human"; "GO_Anti_Mouse"]).
Proof.
  unfold source_labels. rewrite elem_of_list_to_set. intros Hs.
  repeat (apply elem_of_cons in Hs as [->|Hs]); [..|by apply elem_of_nil in Hs];
    (split_and!; split; intros H; try done;
     try (repeat first [apply list_elem_of_here | apply list_elem_of_further]);
     try (repeat (apply elem_of_cons in H as [H|H]; [done|]);
          by apply elem_of_nil in H)).
Qed.
Lemma all_sources_elem_of o sources h s :
  s ∈ all_sources (default new_evidence (dict_get h (aggregate o sources)))
  ↔ (s = "GO_Pro_Human" ∧ h ∈ sources "GO_Pro_Human")
    ∨ (s = "GO_Pro_Mouse"
       ∧ ∃ m, m ∈ sources "GO_Pro_Mouse" ∧ m2h o !! m = Some h)
    ∨ (s = "GO_Anti_Human" ∧ h ∈ sources "GO_Anti_Human")
    ∨ (s = "GO_Anti_Mouse"
       ∧ ∃ m, m ∈ sources "GO_Anti_Mouse" ∧ m2h o !! m = Some h)
    ∨ (s ∈ ["KEGG"; "Reactome"; "Hallmark"] ∧ h ∈ sources s).
Proof.
  unfold all_sources. rewrite !elem_of_union, elem_of_empty.
  rewrite aggregate_pro, aggregate_anti, aggregate_general. tauto.
Qed.

Lemma row_sources_contains o sources h ev pat :
  comma_free pat = true →
  dict_get h (aggregate o sources) = Some ev →
  str_contains pat (Consolidation.sources (consolidate_row (h, ev))) = true
  ↔ ∃ s, s ∈ all_sources
               (default new_evidence (dict_get h (aggregate o sources)))
         ∧ s ∈ source_labels ∧ str_contains pat s = true.
Proof.
  intros Hfree Hget. cbn [consolidate_row Consolidation.sources].
  rewrite sources_cell_contains; [|done|].
  - rewrite Hget. cbn [default]. unfold id. split.
    + intros (s & Hs & Hc). exists s. split_and!; [done| |done].
      pose proof (all_sources_labels o sources h) as Hsub.
      rewrite Hget in Hsub. by apply Hsub.
    + intros (s & Hs & _ & Hc). by exists s.
  - destruct (aggregate_well_formed o sources) as [_ Hev].
    rewrite Forall_forall in Hev.
    specialize (Hev _ (dict_get_elem_of _ _ _ Hget)). cbn in Hev.
    unfold all_sources. rewrite (left_id_L ∅ (∪)). intros Hempty.
    apply empty_union_L in Hempty as [[Hp Ha]%empty_union_L Hg].
    by destruct Hev as [?|[?|?]].
Qed.

(** X22: on the final table of the pipeline, the file of a source label
    holds exactly the rows of the genes of that source: the KEGG, Reactome
    and Hallmark files the rows whose human symbol the respective gene set
    lists, and the GO file the rows of the genes with pro- or
    anti-apoptotic GO evidence, human or mouse. *)
Theorem source_files_match_gene_sets
    (querymany : string → list string → option (list Annotation.ensembl_hit))
    (o : orthology) (sources : string → list string) (df : list gene_row) :
  consolidate_genes o sources = Some df →
  let full := Annotation.main querymany df in
  ∀ r,
    (r ∈ Breakdown.filter_by_source full "KEGG"
     ↔ r ∈ full ∧ Annotation.human_symbol r ∈ sources "KEGG")
    ∧ (r ∈ Breakdown.filter_by_source full "Reactome"
       ↔ r ∈ full ∧ Annotation.human_symbol r ∈ sources "Reactome")
    ∧ (r ∈ Breakdown.filter_by_source full "Hallmark"
       ↔ r ∈ full ∧ Annotation.human_symbol r ∈ sources "Hallmark")
    ∧ (r ∈ Breakdown.filter_by_source full "GO_"
       ↔ r ∈ full
         ∧ (go_pro o sources (Annotation.human_symbol r)
            ∨ go_anti o sources (Annotation.human_symbol r))).
Proof.
  intros Hdf full r. unfold Breakdown.filter_by_source.
  rewrite !list_elem_of_filter.
  assert (∀ pat (P : string → Prop),
            comma_free pat = true →
            (∀ h, (∃ s, s ∈ all_sources
                          (default new_evidence
                             (dict_get h (aggregate o sources)))
                        ∧ s ∈ source_labels ∧ str_contains pat s = true)
                  ↔ P h) →
            str_contains pat (Annotation.sources r) = true ∧ r ∈ full
            ↔ r ∈ full ∧ P (Annotation.human_symbol r)) as Hrow.
  { intros pat P Hfree HP.
    assert (r ∈ full →
            str_contains pat (Annotation.sources r) = true
            ↔ P (Annotation.human_symbol r)) as Hr; [|tauto].
    intros Hin. subst full. unfold Annotation.main in Hin.
    apply list_elem_of_fmap in Hin as (r0 & -> & Hr0).
    apply (elem_of_consolidate_genes _ _ _ _ Hdf) in Hr0
      as (h & ev & Hget & ->).
    cbn [Annotation.sources Annotation.human_symbol].
    rewrite (row_sources_contains o sources h ev pat Hfree Hget).
    apply HP. }
  split_and!;
    [apply (Hrow "KEGG" (λ h, h ∈ sources "KEGG"))
    |apply (Hrow "Reactome" (λ h, h ∈ sources "Reactome"))
    |apply (Hrow "Hallmark" (λ h, h ∈ sources "Hallmark"))
    |apply (Hrow "GO_" (λ h, go_pro o sources h ∨ go_anti o sources h))];
    try done; intros h; split.
  all: try (intros (s & Hs%all_sources_elem_of & Hl%label_contains & Hc);
            destruct Hl as (Hk & Hr & Hh & Hgo)).
  - apply Hk in Hc as ->.
    destruct Hs as [[? _]|[[? _]|[[? _]|[[? _]|[_ ?]]]]]; done.
  - intros Hin. exists "KEGG". split_and!; [|by vm_compute|done].
    apply all_sources_elem_of. do 4 right. split; [|done].
    repeat first [apply list_elem_of_here | apply list_elem_of_further].
  - apply Hr in Hc as ->.
    destruct Hs as [[? _]|[[? _]|[[? _]|[[? _]|[_ ?]]]]]; done.
  - intros Hin. exists "Reactome". split_and!; [|by vm_compute|done].
    apply all_sources_elem_of. do 4 right. split; [|done].
    repeat first [apply list_elem_of_here | apply list_elem_of_further].
  - apply Hh in Hc as ->.
    destruct Hs as [[? _]|[[? _]|[[? _]|[[? _]|[_ ?]]]]]; done.
  - intros Hin. exists "Hallmark". split_and!; [|by vm_compute|done].
    apply all_sources_elem_of. do 4 right. split; [|done].
    repeat first [apply list_elem_of_here | apply list_elem_of_further].
  - apply Hgo in Hc. unfold go_pro, go_anti.
    destruct Hs as [[_ ?]|[[_ ?]|[[_ ?]|[[_ ?]|[Hs _]]]]]; auto.
    repeat (apply elem_of_cons in Hs as [->|Hs]);
      [..|by apply elem_of_nil in Hs];
      repeat (apply elem_of_cons in Hc as [Hc|Hc]; [done|]);
      by apply elem_of_nil in Hc.
  - unfold go_pro, go_anti. intros Hin.
    destruct Hin as [[Hg|Hm]|[Hg|Hm]];
      [exists "GO_Pro_Human"|exists "GO_Pro_Mouse"
      |exists "GO_Anti_Human"|exists "GO_Anti_Mouse"];
      (split_and!;
       [apply all_sources_elem_of; tauto|by vm_compute|done]).
Qed.

Lemma source_files_match_gene_sets_witness :
  consolidate_genes example_orthology run1_sources = Some example_table
  ∧ ∀ r,
      (r ∈ Breakdown.filter_by_source
             (Annotation.main mock_ensembl example_table) "KEGG"
       ↔ r ∈ Annotation.main mock_ensembl example_table
         ∧ Annotation.human_symbol r ∈ run1_sources "KEGG")
      ∧ (r ∈ Breakdown.filter_by_source
               (Annotation.main mock_ensembl example_table) "GO_"
         ↔ r ∈ Annotation.main mock_ensembl example_table
           ∧ (go_pro example_orthology run1_sources (Annotation.human_symbol r)
              ∨ go_anti example_orthology run1_sources
                  (Annotation.human_symbol r))).
Proof.
  assert (Hrun : consolidate_genes example_orthology run1_sources
                 = Some example_table) by (vm_compute; reflexivity).
  split; [exact Hrun|]. intros r.
  destruct (source_files_match_gene_sets mock_ensembl example_orthology
              run1_sources example_table Hrun r) as (Hk & _ & _ & Hgo).
  split; [exact Hk|exact Hgo].
Defined.
End breakdown_contents.

(** ** The sources cell and the evidence score *)

Section sources_cell.
Import Consolidation.

Lemma sorted_set_spec (X : gset string) :
  StronglySorted (holds String.leb) (sorted_set X)
  ∧ NoDup (sorted_set X)
  ∧ length (sorted_set X) = size X
  ∧ ∀ s, s ∈ sorted_set X ↔ s ∈ X.
Proof.
  unfold sorted_set. split_and!.
  - apply sort_by_StronglySorted;
      [apply string_leb_total|apply string_leb_trans].
  - rewrite sort_by_Permutation. apply NoDup_elements.
  - by rewrite sort_by_length.
  - intros s. by rewrite sort_by_elem_of, elem_of_elements.
Qed.

(** X23: in every row of the consolidated table the sources cell is the
    comma-joined list, in ascending order and without repetition, of
    exactly the labels of the sources that list the gene of the row: a
    human GO set or KEGG, Reactome, Hallmark listing the symbol itself, a
    mouse GO set listing a mouse symbol that the mouse-to-human lookup
    resolves to it.  The evidence score is the length of that list. *)
Theorem sources_cell_lists_the_score
    (o : orthology) (srcs : string → list string) (df : list gene_row) :
  consolidate_genes o srcs = Some df →
  Forall
    (λ r, ∃ labels,
       sources r = join "," labels
       ∧ length labels = evidence_score r
       ∧ NoDup labels
       ∧ StronglySorted (holds String.leb) labels
       ∧ ∀ s, s ∈ labels
              ↔ (s = "GO_Pro_Human" ∧ human_symbol r ∈ srcs "GO_Pro_Human")
                ∨ (s = "GO_Pro_Mouse"
                   ∧ ∃ m, m ∈ srcs "GO_Pro_Mouse"
                          ∧ m2h o !! m = Some (human_symbol r))
                ∨ (s = "GO_Anti_Human"
                   ∧ human_symbol r ∈ srcs "GO_Anti_Human")
                ∨ (s = "GO_Anti_Mouse"
                   ∧ ∃ m, m ∈ srcs "GO_Anti_Mouse"
                          ∧ m2h o !! m = Some (human_symbol r))
                ∨ (s ∈ ["KEGG"; "Reactome"; "Hallmark"]
                   ∧ human_symbol r ∈ srcs s))
    df.
Proof.
  intros Hdf. apply Forall_forall.
  intros r (h & ev & Hget & ->)%(elem_of_consolidate_genes _ _ _ _ Hdf).
  exists (sorted_set (all_sources ev)).
  destruct (sorted_set_spec (all_sources ev)) as (Hsorted & Hnd & Hlen & Hel).
  cbn [consolidate_row sources evidence_score human_symbol].
  split_and!; [done..|].
  intros s. rewrite Hel.
  pose proof (all_sources_elem_of o srcs h s) as Hsrc.
  by rewrite Hget in Hsrc.
Qed.

Lemma sources_cell_lists_the_score_witness :
  consolidate_genes example_orthology run1_sources = Some example_table
  ∧ Forall
      (λ r, ∃ labels,
         sources r = join "," labels
         ∧ length labels = evidence_score r
         ∧ NoDup labels
         ∧ StronglySorted (holds String.leb) labels
         ∧ ∀ s, s ∈ labels
                ↔ (s = "GO_Pro_Human"
                   ∧ human_symbol r ∈ run1_sources "GO_Pro_Human")
                  ∨ (s = "GO_Pro_Mouse"
                     ∧ ∃ m, m ∈ run1_sources "GO_Pro_Mouse"
                            ∧ m2h example_orthology !! m
                              = Some (human_symbol r))
                  ∨ (s = "GO_Anti_Human"
                     ∧ human_symbol r ∈ run1_sources "GO_Anti_Human")
                  ∨ (s = "GO_Anti_Mouse"
                     ∧ ∃ m, m ∈ run1_sources "GO_Anti_Mouse"
                            ∧ m2h example_orthology !! m
                              = Some (human_symbol r))
                  ∨ (s ∈ ["KEGG"; "Reactome"; "Hallmark"]
                     ∧ human_symbol r ∈ run1_sources s))
      example_table.
Proof.
  assert (Hrun : consolidate_genes example_orthology run1_sources
                 = Some example_table) by (vm_compute; reflexivity).
  split; [exact Hrun|].
  exact (sources_cell_lists_the_score example_orthology run1_sources
           example_table Hrun).
Defined.
End sources_cell.

(** ** A run with genes of one organism only *)

Section one_organism.
Import Homology.

(** X24: when the raw data holds no human gene or no mouse gene, step 2
    stops with an error whatever the service answers: the lookup for the
    empty gene list ends in the division by its length. *)
Theorem resolver_needs_both_organisms
    (querymany : species → list string → option (list query_hit))
    (getgenes : species → list Z → option (list gene_hit))
    (int_set_order : list Z → list Z)
    (human_genes mouse_genes : list string) :
  human_genes = [] ∨ mouse_genes = [] →
  main querymany getgenes int_set_order human_genes mouse_genes = None.
Proof.
  intros Hempty. apply main_no_records. intros table.
  unfold build_comprehensive_mapping.
  destruct Hempty as [-> | ->]; cbn [sort_by foldr].
  - done.
  - destruct (fetch_homologene_mappings _ _ human mouse) as [[ids1 set1]|];
      done.
Qed.

Lemma resolver_needs_both_organisms_witness :
  (example_human_genes = [] ∨ [] = @nil string)
  ∧ main mock_querymany mock_getgenes mock_int_set_order
      example_human_genes [] = None.
Proof.
  assert (Hempty : example_human_genes = [] ∨ [] = @nil string)
    by (right; reflexivity).
  split; [exact Hempty|].
  exact (resolver_needs_both_organisms mock_querymany mock_getgenes
           mock_int_set_order example_human_genes [] Hempty).
Defined.
End one_organism.
